(** * win_tiling: Windows-10 style window tiling over EWMH

    A shallow embedding of [win_tiling.py]: the tiling vocabulary
    (directions, corners, the corner table), the geometry of a [Screen],
    the classifier [get_windowstate], the dispatcher [move_command] with
    the three movers and [_move], the monitor choice, and the consumer
    loop [consume].

    Python integers are [Z] ([//] is floor division, which is [Z.div] for
    the divisor 2).  Dictionaries are association lists in insertion
    order, because [Screen.stateinfo] iterates over them.  Code that
    talks to the X server runs in a small monad: it reads what the
    server answers, appends the requests it issues to a trace, and may
    raise. *)

From Stdlib Require Import ZArith List String Ascii Bool Lia.
Import ListNotations.
Local Open Scope string_scope.
Local Open Scope Z_scope.
Local Open Scope list_scope.

(** ** Equality tests ([==] and dictionary keys) *)

Class Eqb (K : Type) : Type := {
  eqb : K -> K -> bool;
  eqb_spec : forall a b : K, reflect (a = b) (eqb a b)
}.

Lemma eqb_refl {K} `{Eqb K} (a : K) : eqb a a = true.
Proof. destruct (eqb_spec a a); congruence. Qed.

Lemma eqb_eq {K} `{Eqb K} (a b : K) : eqb a b = true <-> a = b.
Proof. destruct (eqb_spec a b); split; congruence. Qed.

Lemma eqb_neq {K} `{Eqb K} (a b : K) : eqb a b = false <-> a <> b.
Proof. destruct (eqb_spec a b); split; congruence. Qed.

#[export] Instance Eqb_string : Eqb string :=
  {| eqb := String.eqb; eqb_spec := String.eqb_spec |}.

#[export] Instance Eqb_Z : Eqb Z :=
  {| eqb := Z.eqb; eqb_spec := Z.eqb_spec |}.

#[export, refine] Instance Eqb_prod {A B} `{Eqb A} `{Eqb B} : Eqb (A * B) :=
  {| eqb := fun p q => eqb (fst p) (fst q) && eqb (snd p) (snd q) |}.
Proof.
  intros [a b] [a' b']; simpl.
  destruct (eqb_spec a a'), (eqb_spec b b'); simpl; constructor; congruence.
Defined.

(** ** Dictionaries

    A [dict] keeps its items in insertion order.  Assigning to a key that
    is present replaces the value where it stands; a new key goes to the
    end.  A dictionary display or comprehension inserts its items from
    left to right. *)

Definition dict (K V : Type) : Type := list (K * V).

Section Dict.
Context {K V : Type} `{Eqb K}.

Fixpoint dict_get (d : dict K V) (k : K) : option V :=
  match d with
  | [] => None
  | (k', v) :: rest => if eqb k' k then Some v else dict_get rest k
  end.

Fixpoint dict_set (d : dict K V) (k : K) (v : V) : dict K V :=
  match d with
  | [] => [(k, v)]
  | (k', v') :: rest =>
      if eqb k' k then (k', v) :: rest else (k', v') :: dict_set rest k v
  end.

Definition dict_of (items : list (K * V)) : dict K V :=
  fold_left (fun d kv => dict_set d (fst kv) (snd kv)) items [].

(** [d.get(k, default)] *)
Definition dict_get_default (d : dict K V) (k : K) (default : V) : V :=
  match dict_get d k with
  | Some v => v
  | None => default
  end.

(** [d.keys()] *)
Definition keys (d : dict K V) : list K := map fst d.

End Dict.

(** ** Directions and corners *)

Inductive Direction : Type := UP | DOWN | LEFT | RIGHT.

(** The string each direction is in the source; [sorted] and the wire
    protocol see these. *)
Definition str (d : Direction) : string :=
  match d with
  | UP => "up"
  | DOWN => "down"
  | LEFT => "left"
  | RIGHT => "right"
  end.

Definition Direction_eqb (a b : Direction) : bool :=
  match a, b with
  | UP, UP | DOWN, DOWN | LEFT, LEFT | RIGHT, RIGHT => true
  | _, _ => false
  end.

#[export, refine] Instance Eqb_Direction : Eqb Direction :=
  {| eqb := Direction_eqb |}.
Proof. intros [] []; constructor; congruence. Defined.

Definition Corner : Type := (Direction * Direction)%type.

Definition opposites : dict Direction Direction :=
  dict_of [(LEFT, RIGHT); (RIGHT, LEFT); (UP, DOWN); (DOWN, UP)].

(** [sorted((dir1, dir2))]: the sort is stable, so the pair is swapped
    only when the second string is strictly below the first. *)
Definition corner (dir1 dir2 : Direction) : Corner :=
  if String.ltb (str dir2) (str dir1) then (dir2, dir1) else (dir1, dir2).

Definition cornerstates : dict Corner (dict Direction Direction) :=
  dict_of
    [ (corner LEFT UP, dict_of [(DOWN, LEFT); (RIGHT, UP)]);
      (corner RIGHT UP, dict_of [(DOWN, RIGHT); (LEFT, UP)]);
      (corner DOWN LEFT, dict_of [(UP, LEFT); (RIGHT, DOWN)]);
      (corner DOWN RIGHT, dict_of [(UP, RIGHT); (LEFT, DOWN)]) ].

(** What [get_windowstate] returns when it is not [None]: a direction (a
    string in the source) or a corner (a tuple). *)
Inductive Tiling : Type :=
| AtDirection (d : Direction)
| AtCorner (c : Corner).

(** [==] between tiling identifiers: a string never equals a tuple. *)
Definition Tiling_eqb (a b : Tiling) : bool :=
  match a, b with
  | AtDirection d, AtDirection d' => eqb d d'
  | AtCorner c, AtCorner c' => eqb c c'
  | _, _ => false
  end.

#[export, refine] Instance Eqb_Tiling : Eqb Tiling :=
  {| eqb := Tiling_eqb |}.
Proof.
  intros [d | c] [d' | c']; cbn [Tiling_eqb]; try (constructor; congruence).
  - destruct (eqb_spec d d'); constructor; congruence.
  - destruct (eqb_spec c c'); constructor; congruence.
Defined.

(** ** Rectangles *)

Module WH.
Record t : Type := mk { w : Z; h : Z }.
End WH.

Module XY.
Record t : Type := mk { x : Z; y : Z }.
End XY.

(** [Rect], and equally a [screeninfo] monitor: only these four fields
    are read. *)
Module Rect.
Record t : Type := mk { x : Z; y : Z; width : Z; height : Z }.
End Rect.

Module GeometryContainer.
Record t : Type := mk { window : Rect.t; parent : Rect.t }.
End GeometryContainer.

(** ** Screen *)

Module Screen.

Record t : Type := mk {
  x : Z;
  y : Z;
  w : Z;
  h : Z;
  anchors : dict Direction XY.t;
  sizes : dict Direction WH.t;
  corneranchors : dict Corner XY.t;
  cornersize : WH.t
}.

(** [Screen.__init__] *)
Definition init (x y w h : Z) : t :=
  let base_anchors : dict Direction (Z * Z) :=
    dict_of [(LEFT, (0, 0)); (RIGHT, (w / 2, 0)); (UP, (0, 0)); (DOWN, (0, h / 2))] in
  mk x y w h
    (dict_of
       (map (fun '(direction, (x_anchor, y_anchor)) =>
               (direction, XY.mk (x + x_anchor) (y + y_anchor)))
            base_anchors))
    (dict_of
       [(LEFT, WH.mk (w / 2) h);
        (RIGHT, WH.mk (w / 2) h);
        (UP, WH.mk w (h / 2));
        (DOWN, WH.mk w (h / 2))])
    (dict_of
       (map (fun '(corner, (x_anchor, y_anchor)) =>
               (corner, XY.mk (x + x_anchor) (y + y_anchor)))
            (dict_of
               [(corner UP LEFT, (0, 0));
                (corner UP RIGHT, (w / 2, 0));
                (corner DOWN LEFT, (0, h / 2));
                (corner DOWN RIGHT, (w / 2, h / 2))])))
    (WH.mk (w / 2) (h / 2)).

(** [Screen.stateinfo] is a generator: an item is computed when the
    consumer asks for it, and [self.sizes[direction]] raises [KeyError]
    at that moment when the key is missing ([None] here). *)
Definition stateinfo (self : t) : list (option (Tiling * XY.t * WH.t)) :=
  (map (fun '(direction, anchor) =>
          match dict_get (sizes self) direction with
          | Some size => Some (AtDirection direction, anchor, size)
          | None => None
          end)
       (anchors self)
   ++ map (fun '(corner_, anchor) =>
             Some (AtCorner corner_, anchor, cornersize self))
          (corneranchors self))%list.

End Screen.

(** ** The X server as the program sees it *)

(** The exceptions met: the three the program's own operations raise
    (a missing key, [max] of nothing, a string sorted with a tuple),
    [AttributeError] for the query on a missing window, [XError] for
    any error the X libraries report, and [OverflowError] for a field
    of a client message that does not fit its 32 bits. *)
Inductive exn : Type :=
| KeyError
| ValueError
| TypeError
| AttributeError
| XError
| OverflowError.

(** What the display answers while one command is handled.  [geometry]
    is the outcome of [get_geometry]'s queries (the active window, its
    geometry and its parent's): the two rectangles, or the exception the
    queries end in; with no focused window [getActiveWindow] returns
    [None] and the attribute access on it raises [AttributeError].
    [monitors] is the outcome of [get_monitors()].  [VERBOSE] is the
    module's flag.  The answers are taken to be the same for every query
    of one command: how the window manager reacts to the requests is not
    part of the program, and [consume] below gives every command an
    environment of its own. *)
Module Env.
Record t : Type := mk {
  geometry : exn + GeometryContainer.t;
  monitors : exn + list Rect.t;
  VERBOSE : bool
}.
End Env.

(** What a command does to the outside, in order. *)
Inductive effect : Type :=
| setWmState (action : Z) (state : string)
| setMoveResizeWindow (x y w h : Z)
| flush
| print (line : string).

Definition trace : Type := list effect.

(** A computation reads the environment, issues effects and returns or
    raises. *)
Definition M (A : Type) : Type := Env.t -> trace * (exn + A).

Definition ret {A} (a : A) : M A := fun _ => ([], inr a).

Definition raise {A} (e : exn) : M A := fun _ => ([], inl e).

Definition bind {A B} (m : M A) (k : A -> M B) : M B :=
  fun env =>
    match m env with
    | (tr, inl e) => (tr, inl e)
    | (tr, inr a) => let (tr', r) := k a env in ((tr ++ tr')%list, r)
    end.

Notation "x <- m ;; k" := (bind m (fun x => k))
  (at level 61, m at next level, right associativity).
Notation "m ;; k" := (bind m (fun _ => k))
  (at level 61, right associativity).

Definition emit (e : effect) : M unit := fun _ => ([e], inr tt).

(** [d[k]] *)
Definition getitem {K V} `{Eqb K} (d : dict K V) (k : K) : M V :=
  match dict_get d k with
  | Some v => ret v
  | None => raise KeyError
  end.

Definition tab : string := String (ascii_of_nat 9) EmptyString.

Definition debug (line : string) : M unit :=
  fun env => (if Env.VERBOSE env then [print line] else [], inr tt).

(** [repr] of a tuple of two strings, as an f-string prints a corner. *)
Definition repr_corner (c : Corner) : string :=
  ("('" ++ str (fst c) ++ "', '" ++ str (snd c) ++ "')")%string.

(** ** Geometry queries *)

Definition get_geometry : M GeometryContainer.t :=
  fun env => ([], Env.geometry env).

Definition get_monitors : M (list Rect.t) :=
  fun env => ([], Env.monitors env).

Definition get_decoration_dimensions : M WH.t :=
  geometry <- get_geometry ;;
  ret (WH.mk
         (Rect.width (GeometryContainer.parent geometry)
          - Rect.width (GeometryContainer.window geometry))
         (Rect.height (GeometryContainer.parent geometry)
          - Rect.height (GeometryContainer.window geometry))).

Definition get_overlapping_area (r1 r2 : Rect.t) : Z :=
  let width :=
    Z.min (Rect.x r1 + Rect.width r1) (Rect.x r2 + Rect.width r2)
    - Z.max (Rect.x r1) (Rect.x r2) in
  let height :=
    Z.min (Rect.y r1 + Rect.height r1) (Rect.y r2 + Rect.height r2)
    - Z.max (Rect.y r1) (Rect.y r2) in
  Z.max width 0 * Z.max height 0.

(** [max(iterable, key=...)]: the first item with the greatest key;
    [ValueError] on an empty iterable. *)
Fixpoint max_from {A} (key : A -> Z) (best : A) (rest : list A) : A :=
  match rest with
  | [] => best
  | item :: rest' =>
      if key best <? key item then max_from key item rest'
      else max_from key best rest'
  end.

Definition py_max {A} (key : A -> Z) (items : list A) : M A :=
  match items with
  | [] => raise ValueError
  | first :: rest => ret (max_from key first rest)
  end.

Definition get_active_monitor : M Rect.t :=
  geometry <- get_geometry ;;
  let geometry := GeometryContainer.parent geometry in
  monitors <- get_monitors ;;
  py_max (get_overlapping_area geometry) monitors.

Definition get_screen : M Screen.t :=
  monitor <- get_active_monitor ;;
  ret (Screen.init (Rect.x monitor) (Rect.y monitor)
                   (Rect.width monitor) (Rect.height monitor)).

(** The loop of [get_windowstate] over the generator: the first item
    whose anchor and size equal the window's, integer for integer. *)
Fixpoint scan (win_anchor win_size : Z * Z)
    (items : list (option (Tiling * XY.t * WH.t))) : M (option Tiling) :=
  match items with
  | [] => ret None
  | None :: _ => raise KeyError
  | Some (state, anchor, size) :: rest =>
      if eqb (win_anchor, win_size)
             ((XY.x anchor, XY.y anchor), (WH.w size, WH.h size))
      then ret (Some state)
      else scan win_anchor win_size rest
  end.

Definition get_windowstate : M (option Tiling) :=
  screen <- get_screen ;;
  geometry <- get_geometry ;;
  let geometry := GeometryContainer.parent geometry in
  let win_anchor := (Rect.x geometry, Rect.y geometry) in
  let win_size := (Rect.width geometry, Rect.height geometry) in
  scan win_anchor win_size (Screen.stateinfo screen).

(** ** Moving the window *)

(** The four fields of the move-resize message travel as unsigned
    32-bit words. *)
Definition card32 (n : Z) : bool := (0 <=? n) && (n <? 2 ^ 32).

(** [e.setMoveResizeWindow(win, x=x, y=y, w=w, h=h)]: the request is
    queued for the display, or packing it raises [OverflowError] because
    a field is negative or above 32 bits, and nothing is queued. *)
Definition e_setMoveResizeWindow (x y w h : Z) : M unit :=
  if card32 x && card32 y && card32 w && card32 h
  then emit (setMoveResizeWindow x y w h)
  else raise OverflowError.

Definition _move (x y w h : Z) : M unit :=
  emit (setWmState 0 "_NET_WM_STATE_MAXIMIZED_HORZ") ;;
  emit (setWmState 0 "_NET_WM_STATE_MAXIMIZED_VERT") ;;
  decoration_dimensions <- get_decoration_dimensions ;;
  let border_width := WH.w decoration_dimensions / 2 in
  let new_x := x + border_width in
  let new_y := y + WH.h decoration_dimensions - border_width in
  let new_w := w - WH.w decoration_dimensions in
  let new_h := h - WH.h decoration_dimensions in
  e_setMoveResizeWindow new_x new_y new_w new_h ;;
  emit flush.

Definition move (direction : Direction) : M unit :=
  debug (tab ++ tab ++ "move(" ++ str direction ++ ")")%string ;;
  screen <- get_screen ;;
  pos <- getitem (Screen.anchors screen) direction ;;
  dim <- getitem (Screen.sizes screen) direction ;;
  _move (XY.x pos) (XY.y pos) (WH.w dim) (WH.h dim).

Definition maximise : M unit :=
  debug (tab ++ tab ++ "maximise()")%string ;;
  screen <- get_screen ;;
  _move (Screen.x screen) (Screen.y screen) (Screen.w screen) (Screen.h screen).

Definition cornermove (corner_direction : Corner) : M unit :=
  debug (tab ++ tab ++ "submove(" ++ repr_corner corner_direction ++ ")")%string ;;
  screen <- get_screen ;;
  xy <- getitem (Screen.corneranchors screen) corner_direction ;;
  let wh := Screen.cornersize screen in
  _move (XY.x xy) (XY.y xy) (WH.w wh) (WH.h wh).

(** The body of [move_command] once [get_windowstate()] has answered.
    In the last branch the source sorts the window state with the
    direction: that is [corner] when the state is a direction, and a
    [TypeError] (a tuple against a string) when it is a tuple that is
    not a key of [cornerstates]. *)
Definition move_command_from (windowstate : option Tiling)
    (direction : Direction) : M unit :=
  match windowstate with
  | None => move direction
  | Some windowstate =>
      if eqb windowstate (AtDirection direction) then ret tt
      else
        opposite <- getitem opposites direction ;;
        if eqb windowstate (AtDirection opposite) then maximise
        else
          match windowstate with
          | AtCorner c =>
              match dict_get cornerstates c with
              | Some directions =>
                  let move_direction :=
                    dict_get_default directions direction direction in
                  move move_direction
              | None => raise TypeError
              end
          | AtDirection current => cornermove (corner current direction)
          end
  end.

Definition move_command (direction : Direction) : M unit :=
  windowstate <- get_windowstate ;;
  move_command_from windowstate direction.

(** ** The command channel's consumer *)

Definition Callback : Type := M unit.

Definition CALLBACKS : dict string Callback :=
  dict_of (map (fun direction => (str direction, move_command direction))
               (keys opposites)).

(** Where [consume] stands once the queued events are used up or an
    exception leaves it. *)
Inductive consumer : Type :=
| Waiting
| Crashed (e : exn) (unconsumed : list string).

(** [consume] on the events queued so far.  [world n] is what the
    display answers while the [n]-th consumed event is handled.  The
    [try] covers the lookup only: [KeyError] there prints and the loop
    goes on; the callback runs in the [else] clause, so what it raises
    leaves the [while] loop and the function.  On an empty queue
    [queue.get()] blocks. *)
Fixpoint consume (queue : list string) (callbacks : dict string Callback)
    (world : nat -> Env.t) (n : nat) : trace * consumer :=
  match queue with
  | [] => ([], Waiting)
  | event :: rest =>
      match dict_get callbacks event with
      | None =>
          let (tr, c) := consume rest callbacks world (S n) in
          (print ("unhandled event " ++ event)%string :: tr, c)
      | Some callback =>
          match callback (world n) with
          | (tr, inl e) => (tr, Crashed e rest)
          | (tr, inr _) =>
              let (tr', c) := consume rest callbacks world (S n) in
              ((tr ++ tr')%list, c)
          end
      end
  end.


(** ** The command channel's listener *)

Definition STOP_EVENT_HANDLER : string := "win_tiling_end".

Module EventListener.

(** Where [listen] stands on the connections made so far. *)
Inductive state : Type :=
| Accepting
| Returned
| Raised (e : exn).

(** [EventListener.listen] on the connections made so far, oldest first.
    A connection is what [accept()] and [recv()] give for it: the event
    received, or the exception one of the two raises, which nothing
    catches.  The result is what was put on the queue, oldest first, and
    where the loop stands: blocked in [accept()], returned on the stop
    event, or left by an exception. *)
Fixpoint listen (connections : list (exn + string)) : list string * state :=
  match connections with
  | [] => ([], Accepting)
  | inl e :: _ => ([], Raised e)
  | inr event :: rest =>
      if eqb event STOP_EVENT_HANDLER then ([], Returned)
      else let (queue, s) := listen rest in (event :: queue, s)
  end.

End EventListener.

(** ** Ports and [main] *)

From Stdlib Require Import DecimalString.

Definition PORT_FILE : string := "/tmp/win_tiling_port".

Definition DEFAULT_PORT : Z := 6293.

(** The arguments as [parse_args()] returns them, by mode. *)
Inductive Args : Type :=
| server (verbose : bool) (port : option Z) (random_port : bool)
| client (verbose : bool) (message : string) (port : option Z)
         (use_hardcoded_port : bool).

(** What the operating system's calls and the conversion of the port
    file raise. *)
Inductive error : Type :=
| OSError
| FileNotFoundError
| ConnectionRefusedError
| AuthenticationError
| NotAnInteger.

(** What the operating system answers to one run of [main]:
    [get_free_port_number()]; writing [PORT_FILE]; creating the
    [Listener] for a port, which gives the port the listener is bound
    to (for port 0 the system picks one) or raises; the connections the
    listener then gets; creating the [Client] for a port and sending on
    it; and the display, command after command. *)
Module OS.
Record t : Type := mk {
  free_port : error + Z;
  write_text : option error;
  Listener : Z -> error + Z;
  connections : list (exn + string);
  Client : Z -> option error;
  world : nat -> Env.t
}.
End OS.

(** How a run of [main] ends: serving, with the port passed to the
    listener, the port the listener is bound to, and what the consumer
    did on the events the listener queued; a message sent to a port; or
    an exception before either. *)
Inductive ending : Type :=
| Serving (port : Z) (bound : Z) (run : trace * consumer)
| Sent (port : Z) (message : string)
| Failed (e : error).

Section Main.

(** [str] and [int] of the language, on port numbers and on the text of
    the port file. *)
Variable py_str : Z -> string.
Variable py_int : string -> option Z.

(** [file] is what reading [PORT_FILE] gives: its text, or the
    exception. *)
Definition get_port_from_file (file : error + string) : error + Z :=
  match file with
  | inl e => inl e
  | inr text =>
      match py_int text with
      | Some port => inr port
      | None => inl NotAnInteger
      end
  end.

(** [main] on parsed arguments: the port file it leaves and how it
    ends.  The server's consumer runs with [VERBOSE] set from the
    arguments. *)
Definition main (args : Args) (os : OS.t) (file : error + string)
  : (error + string) * ending :=
  match args with
  | server verbose port random_port =>
      let port :=
        match port with
        | Some port => inr port
        | None => if random_port then OS.free_port os else inr DEFAULT_PORT
        end in
      match port with
      | inl e => (file, Failed e)
      | inr port =>
          match OS.write_text os with
          | Some e => (file, Failed e)
          | None =>
              let file := inr (py_str port) in
              match OS.Listener os port with
              | inl e => (file, Failed e)
              | inr bound =>
                  let queue :=
                    fst (EventListener.listen (OS.connections os)) in
                  (file,
                   Serving port bound
                     (consume queue CALLBACKS
                        (fun n =>
                           Env.mk (Env.geometry (OS.world os n))
                                  (Env.monitors (OS.world os n)) verbose)
                        0))
              end
          end
      end
  | client verbose message port use_hardcoded_port =>
      let port :=
        match port with
        | Some port => inr port
        | None =>
            if use_hardcoded_port then inr DEFAULT_PORT
            else get_port_from_file file
        end in
      match port with
      | inl e => (file, Failed e)
      | inr port =>
          match OS.Client os port with
          | Some e => (file, Failed e)
          | None => (file, Sent port message)
          end
      end
  end.

End Main.
(** * Vocabulary of the statements *)

(** ** Corners and targets *)

Definition spec_opposite (d : Direction) : Direction :=
  match d with
  | LEFT => RIGHT
  | RIGHT => LEFT
  | UP => DOWN
  | DOWN => UP
  end.

(** The four pairs of non-opposite directions, each in sorted order. *)
Definition canonical_corners : list Corner :=
  [(LEFT, UP); (RIGHT, UP); (DOWN, LEFT); (DOWN, RIGHT)].

(** The outcome of a transition, in the words of the specification. *)
Inductive Target : Type :=
| NoMove
| Half (d : Direction)
| Quarter (c : Corner)
| Full.

(** The specification's corners are unordered pairs. *)
Definition spec_is (c : Corner) (a b : Direction) : bool :=
  eqb c (a, b) || eqb c (b, a).

(** The per-corner table as the specification prints it; a direction
    that is not a key of the corner's map passes through. *)
Definition spec_corner_table (c : Corner) (requested : Direction) : Direction :=
  if spec_is c LEFT UP then
    match requested with DOWN => LEFT | RIGHT => UP | other => other end
  else if spec_is c RIGHT UP then
    match requested with DOWN => RIGHT | LEFT => UP | other => other end
  else if spec_is c DOWN LEFT then
    match requested with UP => LEFT | RIGHT => DOWN | other => other end
  else if spec_is c DOWN RIGHT then
    match requested with UP => RIGHT | LEFT => DOWN | other => other end
  else requested.

(** The specification's five rules, in priority order. *)
Definition spec_next_position (current : option Tiling)
    (requested : Direction) : Target :=
  match current with
  | None => Half requested
  | Some current =>
      if eqb current (AtDirection requested) then NoMove
      else if eqb current (AtDirection (spec_opposite requested)) then Full
      else
        match current with
        | AtCorner c => Half (spec_corner_table c requested)
        | AtDirection h => Quarter (corner h requested)
        end
  end.

(** What the source calls for each outcome. *)
Definition perform (t : Target) : M unit :=
  match t with
  | NoMove => ret tt
  | Half d => move d
  | Quarter c => cornermove c
  | Full => maximise
  end.

(** The nine positions: untiled, the four halves, the four quarters. *)
Definition positions : list (option Tiling) :=
  None
  :: map (fun d => Some (AtDirection d)) (keys opposites)
  ++ map (fun c => Some (AtCorner c)) (keys cornerstates).

(** ** Pixels *)

(** The pixels of a rectangle: columns [x] to [x + w - 1], rows [y] to
    [y + h - 1]. *)
Definition covers (anchor : XY.t) (size : WH.t) (px py : Z) : bool :=
  (XY.x anchor <=? px) && (px <? XY.x anchor + WH.w size)
  && (XY.y anchor <=? py) && (py <? XY.y anchor + WH.h size).

Definition area (size : WH.t) : Z := WH.w size * WH.h size.

(** The pixels of a [Rect]. *)
Definition contains (r : Rect.t) (px py : Z) : Prop :=
  Rect.x r <= px < Rect.x r + Rect.width r
  /\ Rect.y r <= py < Rect.y r + Rect.height r.

(** ** What a command reads and issues *)

(** The line [debug] prints, if any. *)
Definition dbg (env : Env.t) (line : string) : trace :=
  if Env.VERBOSE env then [print line] else [].

(** The decoration sizes [get_decoration_dimensions] computes from what
    [get_geometry] returned. *)
Definition decoration (g : GeometryContainer.t) : WH.t :=
  WH.mk
    (Rect.width (GeometryContainer.parent g)
     - Rect.width (GeometryContainer.window g))
    (Rect.height (GeometryContainer.parent g)
     - Rect.height (GeometryContainer.window g)).

(** The requests of one [_move] for the target [(x, y, w, h)]. *)
Definition requests (g : GeometryContainer.t) (x y w h : Z) : trace :=
  [ setWmState 0 "_NET_WM_STATE_MAXIMIZED_HORZ";
    setWmState 0 "_NET_WM_STATE_MAXIMIZED_VERT";
    setMoveResizeWindow
      (x + WH.w (decoration g) / 2)
      (y + WH.h (decoration g) - WH.w (decoration g) / 2)
      (w - WH.w (decoration g))
      (h - WH.h (decoration g));
    flush ].

(** What one [_move] for the target [(x, y, w, h)] comes to: the four
    requests when the fields asked for fit their 32 bits; otherwise the
    two unmaximise requests and the [OverflowError] of the third. *)
Definition attempt (g : GeometryContainer.t) (x y w h : Z)
  : trace * (exn + unit) :=
  if card32 (x + WH.w (decoration g) / 2)
     && card32 (y + WH.h (decoration g) - WH.w (decoration g) / 2)
     && card32 (w - WH.w (decoration g))
     && card32 (h - WH.h (decoration g))
  then (requests g x y w h, inr tt)
  else ([ setWmState 0 "_NET_WM_STATE_MAXIMIZED_HORZ";
          setWmState 0 "_NET_WM_STATE_MAXIMIZED_VERT" ],
        inl OverflowError).

(** The monitor [get_active_monitor] picks among [m :: ms]. *)
Definition active_monitor (g : GeometryContainer.t) (m : Rect.t)
    (ms : list Rect.t) : Rect.t :=
  max_from (get_overlapping_area (GeometryContainer.parent g)) m ms.

(** The screen [get_screen] builds for it. *)
Definition active_screen (g : GeometryContainer.t) (m : Rect.t)
    (ms : list Rect.t) : Screen.t :=
  Screen.init (Rect.x (active_monitor g m ms)) (Rect.y (active_monitor g m ms))
              (Rect.width (active_monitor g m ms))
              (Rect.height (active_monitor g m ms)).

(** An environment in which the window and monitor queries answer. *)
Definition responsive (env : Env.t) : Prop :=
  exists g m ms, Env.geometry env = inr g /\ Env.monitors env = inr (m :: ms).

(** The ways the window and monitor queries of one command fail: the
    geometry query raises (no focused window among the causes), the
    monitor query raises, or there is no monitor to take the maximum
    of. *)
Definition query_fails (env : Env.t) (e : exn) : Prop :=
  Env.geometry env = inl e
  \/ exists g,
      Env.geometry env = inr g
      /\ (Env.monitors env = inl e
          \/ (Env.monitors env = inr [] /\ e = ValueError)).

(** The reading of "a failing command never ends the consumer loop":
    whatever the queue holds and whatever the display answers, [consume]
    gets through the queue and waits for more. *)
Definition survives_failures : Prop :=
  forall (queue : list string) (world : nat -> Env.t),
  exists tr, consume queue CALLBACKS world 0 = (tr, Waiting).

(** ** The classifier's items *)

Definition item : Type := (Tiling * XY.t * WH.t)%type.

Definition state_of (i : item) : Tiling := fst (fst i).

(** The anchor and size of an item, as the tuples the source compares. *)
Definition rect_of (i : item) : (Z * Z) * (Z * Z) :=
  ((XY.x (snd (fst i)), XY.y (snd (fst i))), (WH.w (snd i), WH.h (snd i))).

(** The items of the screen built on [(x, y, w, h)], in the order
    [stateinfo] yields them. *)
Definition enumerated (x y w h : Z) : list item :=
  [ (AtDirection LEFT, XY.mk x y, WH.mk (w / 2) h);
    (AtDirection RIGHT, XY.mk (x + w / 2) y, WH.mk (w / 2) h);
    (AtDirection UP, XY.mk x y, WH.mk w (h / 2));
    (AtDirection DOWN, XY.mk x (y + h / 2), WH.mk w (h / 2));
    (AtCorner (LEFT, UP), XY.mk x y, WH.mk (w / 2) (h / 2));
    (AtCorner (RIGHT, UP), XY.mk (x + w / 2) y, WH.mk (w / 2) (h / 2));
    (AtCorner (DOWN, LEFT), XY.mk x (y + h / 2), WH.mk (w / 2) (h / 2));
    (AtCorner (DOWN, RIGHT), XY.mk (x + w / 2) (y + h / 2),
     WH.mk (w / 2) (h / 2)) ].

(** ** Sample environments *)

(** A window of 100 by 100 pixels inside a frame of 110 by 135 (borders
    of 5, a title bar of 30), floating at (300, 200) on one monitor of
    1920 by 1080. *)
Definition example_geometry : GeometryContainer.t :=
  GeometryContainer.mk (Rect.mk 305 230 100 100) (Rect.mk 300 200 110 135).

Definition example_env : Env.t :=
  Env.mk (inr example_geometry) (inr [Rect.mk 0 0 1920 1080]) false.

(** The same frame tiled to the left half of that monitor. *)
Definition tiled_left_env : Env.t :=
  Env.mk (inr (GeometryContainer.mk (Rect.mk 5 30 950 1045)
                                    (Rect.mk 0 0 960 1080)))
         (inr [Rect.mk 0 0 1920 1080]) false.

(** No window has the focus. *)
Definition unfocused_env : Env.t :=
  Env.mk (inl AttributeError) (inr [Rect.mk 0 0 1920 1080]) false.


(** ** Vocabulary of the further properties *)

(** [inner] lies within [outer]. *)
Definition within (inner outer : Rect.t) : Prop :=
  Rect.x outer <= Rect.x inner
  /\ Rect.x inner + Rect.width inner <= Rect.x outer + Rect.width outer
  /\ Rect.y outer <= Rect.y inner
  /\ Rect.y inner + Rect.height inner <= Rect.y outer + Rect.height outer.

(** The environment with the module's flag set to [v]. *)
Definition set_VERBOSE (v : bool) (env : Env.t) : Env.t :=
  Env.mk (Env.geometry env) (Env.monitors env) v.

Definition is_request (e : effect) : bool :=
  match e with
  | print _ => false
  | _ => true
  end.

(** The requests to the display in a trace: everything but the printed
    lines. *)
Definition requests_of (tr : trace) : trace := filter is_request tr.

(** A computation that shows the flag only in what it prints: with the
    flag off it prints nothing, and its requests and its result are the
    same whatever the flag. *)
Definition verbose_blind {A} (m : M A) : Prop :=
  forall (env : Env.t) (v : bool),
    fst (m (set_VERBOSE false env)) = requests_of (fst (m (set_VERBOSE v env)))
    /\ snd (m (set_VERBOSE false env)) = snd (m (set_VERBOSE v env)).

(** A frame straddling two monitors, 120 columns on the first and 190 on
    the second. *)
Definition two_monitors_env : Env.t :=
  Env.mk (inr (GeometryContainer.mk (Rect.mk 1805 230 300 200)
                                    (Rect.mk 1800 200 310 235)))
         (inr [Rect.mk 0 0 1920 1080; Rect.mk 1920 0 1280 1024]) false.



(** What [consume] does for one event: the callback's run, or the line
    for an event without a callback. *)
Definition handle (callbacks : dict string Callback) (env : Env.t)
    (event : string) : trace * (exn + unit) :=
  match dict_get callbacks event with
  | Some callback => callback env
  | None => ([print ("unhandled event " ++ event)%string], inr tt)
  end.

(** The traces of the commands [directions], one after the other, the
    first in [world n]. *)
Fixpoint commands (directions : list Direction) (world : nat -> Env.t)
    (n : nat) : trace :=
  match directions with
  | [] => []
  | direction :: rest =>
      fst (move_command direction (world n)) ++ commands rest world (S n)
  end.

(** * Properties *)

(** ** Corners *)

Lemma opposites_lookup (d : Direction) :
  dict_get opposites d = Some (spec_opposite d).
Proof. destruct d; reflexivity. Qed.

Lemma corner_comm (d1 d2 : Direction) : corner d1 d2 = corner d2 d1.
Proof. destruct d1, d2; reflexivity. Qed.

Lemma corner_sorted (d1 d2 : Direction) :
  String.leb (str (fst (corner d1 d2))) (str (snd (corner d1 d2))) = true.
Proof. destruct d1, d2; reflexivity. Qed.

Lemma corner_canonical (d1 d2 : Direction) :
  d1 <> d2 -> d1 <> spec_opposite d2 -> In (corner d1 d2) canonical_corners.
Proof.
  destruct d1, d2; simpl; intros Hne Hopp;
    try (exfalso; apply Hne; reflexivity);
    try (exfalso; apply Hopp; reflexivity);
    unfold canonical_corners; simpl; auto 6.
Qed.

Lemma canonical_not_opposite (c : Corner) :
  In c canonical_corners -> fst c <> snd c /\ fst c <> spec_opposite (snd c).
Proof.
  unfold canonical_corners; simpl.
  intros [<- | [<- | [<- | [<- | []]]]]; simpl; split; discriminate.
Qed.

(** ** The screen's tables *)

Lemma Screen_init_eq (x y w h : Z) :
  Screen.init x y w h =
  Screen.mk x y w h
    [(LEFT, XY.mk (x + 0) (y + 0));
     (RIGHT, XY.mk (x + w / 2) (y + 0));
     (UP, XY.mk (x + 0) (y + 0));
     (DOWN, XY.mk (x + 0) (y + h / 2))]
    [(LEFT, WH.mk (w / 2) h);
     (RIGHT, WH.mk (w / 2) h);
     (UP, WH.mk w (h / 2));
     (DOWN, WH.mk w (h / 2))]
    [((LEFT, UP), XY.mk (x + 0) (y + 0));
     ((RIGHT, UP), XY.mk (x + w / 2) (y + 0));
     ((DOWN, LEFT), XY.mk (x + 0) (y + h / 2));
     ((DOWN, RIGHT), XY.mk (x + w / 2) (y + h / 2))]
    (WH.mk (w / 2) (h / 2)).
Proof. reflexivity. Qed.

Lemma twice_half (n : Z) : 2 * (n / 2) = n - n mod 2 /\ 0 <= n mod 2 <= 1.
Proof.
  pose proof (Z.div_mod n 2 ltac:(lia)).
  pose proof (Z.mod_pos_bound n 2 ltac:(lia)). lia.
Qed.

(** C2: the tables of [Screen.init x y w h], item by item and in the
    order the constructor inserts them: the sizes and anchors of the
    four halves, the one quarter size, and the anchors of the four
    corners.  Non-negative fields are not needed: [w / 2] is the floor
    of the half for every integer. *)
Theorem Screen_init_geometry :
  forall x y w h : Z,
    let s := Screen.init x y w h in
    Screen.sizes s =
      [(LEFT, WH.mk (w / 2) h); (RIGHT, WH.mk (w / 2) h);
       (UP, WH.mk w (h / 2)); (DOWN, WH.mk w (h / 2))]
    /\ Screen.anchors s =
      [(LEFT, XY.mk x y); (RIGHT, XY.mk (x + w / 2) y);
       (UP, XY.mk x y); (DOWN, XY.mk x (y + h / 2))]
    /\ Screen.cornersize s = WH.mk (w / 2) (h / 2)
    /\ Screen.corneranchors s =
      [(corner UP LEFT, XY.mk x y);
       (corner UP RIGHT, XY.mk (x + w / 2) y);
       (corner DOWN LEFT, XY.mk x (y + h / 2));
       (corner DOWN RIGHT, XY.mk (x + w / 2) (y + h / 2))]
    /\ (Screen.x s, Screen.y s, Screen.w s, Screen.h s) = (x, y, w, h)
    /\ (forall n : Z, 2 * (n / 2) <= n < 2 * (n / 2) + 2).
Proof.
  intros x y w h s. subst s. rewrite Screen_init_eq.
  split; [reflexivity |].
  split; [cbn [Screen.anchors]; rewrite !Z.add_0_r; reflexivity |].
  split; [reflexivity |].
  split; [cbn [Screen.corneranchors]; rewrite !Z.add_0_r; reflexivity |].
  split; [reflexivity |].
  intros n. destruct (twice_half n). lia.
Qed.

Example Screen_full_hd :
  Screen.init 0 0 1920 1080 =
  Screen.mk 0 0 1920 1080
    [(LEFT, XY.mk 0 0); (RIGHT, XY.mk 960 0);
     (UP, XY.mk 0 0); (DOWN, XY.mk 0 540)]
    [(LEFT, WH.mk 960 1080); (RIGHT, WH.mk 960 1080);
     (UP, WH.mk 1920 540); (DOWN, WH.mk 1920 540)]
    [((LEFT, UP), XY.mk 0 0); ((RIGHT, UP), XY.mk 960 0);
     ((DOWN, LEFT), XY.mk 0 540); ((DOWN, RIGHT), XY.mk 960 540)]
    (WH.mk 960 540).
Proof. reflexivity. Qed.

(** ** Areas *)

(** C8: the two horizontal halves have the screen's height and widths
    that add up to [w] or [w - 1], the right one starting where the left
    one ends; the two vertical halves likewise; the four quarters have
    [4 * (w / 2) * (h / 2)] pixels together, which is the area of the
    screen shortened by [w mod 2] columns and [h mod 2] rows; and they
    partition that shortened screen: each of its pixels lies in exactly
    one quarter and no other pixel lies in any. *)
Theorem Screen_init_partitions :
  forall x y w h : Z,
    let s := Screen.init x y w h in
    (exists al ar l r,
        dict_get (Screen.anchors s) LEFT = Some al
        /\ dict_get (Screen.anchors s) RIGHT = Some ar
        /\ dict_get (Screen.sizes s) LEFT = Some l
        /\ dict_get (Screen.sizes s) RIGHT = Some r
        /\ (WH.w l + WH.w r = w \/ WH.w l + WH.w r = w - 1)
        /\ WH.h l = h /\ WH.h r = h
        /\ XY.x ar = XY.x al + WH.w l)
    /\ (exists au ad u d,
        dict_get (Screen.anchors s) UP = Some au
        /\ dict_get (Screen.anchors s) DOWN = Some ad
        /\ dict_get (Screen.sizes s) UP = Some u
        /\ dict_get (Screen.sizes s) DOWN = Some d
        /\ (WH.h u + WH.h d = h \/ WH.h u + WH.h d = h - 1)
        /\ WH.w u = w /\ WH.w d = w
        /\ XY.y ad = XY.y au + WH.h u)
    /\ fold_right Z.add 0
         (map (fun _ => area (Screen.cornersize s)) (Screen.corneranchors s))
       = 4 * (w / 2) * (h / 2)
    /\ 4 * (w / 2) * (h / 2) = (w - w mod 2) * (h - h mod 2)
    /\ 0 <= w mod 2 <= 1 /\ 0 <= h mod 2 <= 1
    /\ (forall px py,
          List.length
            (filter (fun ca => covers (snd ca) (Screen.cornersize s) px py)
                    (Screen.corneranchors s))
          = if covers (XY.mk x y) (WH.mk (w - w mod 2) (h - h mod 2)) px py
            then 1%nat else 0%nat).
Proof.
  intros x y w h s. subst s. rewrite Screen_init_eq.
  destruct (twice_half w) as [Hw Hwm], (twice_half h) as [Hh Hhm].
  split.
  { do 4 eexists. repeat (split; [reflexivity |]). simpl. lia. }
  split.
  { do 4 eexists. repeat (split; [reflexivity |]). simpl. lia. }
  split;
    [unfold area;
     cbn [map fold_right Screen.corneranchors Screen.cornersize WH.w WH.h];
     ring |].
  split; [nia |].
  split; [assumption |]. split; [assumption |].
  intros px py. unfold covers. simpl.
  rewrite <- Hw, <- Hh.
  repeat match goal with
         | |- context [?a <=? ?b] =>
             destruct (Z.leb_spec a b); try (exfalso; lia)
         | |- context [?a <? ?b] =>
             destruct (Z.ltb_spec a b); try (exfalso; lia)
         end; reflexivity.
Qed.

(** ** The overlap that picks the monitor *)

Lemma max_from_ext {A} (key1 key2 : A -> Z) :
  (forall a, key1 a = key2 a) ->
  forall rest best, max_from key1 best rest = max_from key2 best rest.
Proof.
  intros Hext rest. induction rest as [| item rest IH]; intros best; simpl.
  - reflexivity.
  - rewrite !Hext. destruct (key2 best <? key2 item); apply IH.
Qed.

Lemma get_overlapping_area_comm (r1 r2 : Rect.t) :
  get_overlapping_area r1 r2 = get_overlapping_area r2 r1.
Proof.
  unfold get_overlapping_area.
  rewrite (Z.min_comm (Rect.x r1 + Rect.width r1)),
          (Z.min_comm (Rect.y r1 + Rect.height r1)),
          (Z.max_comm (Rect.x r1)), (Z.max_comm (Rect.y r1)).
  reflexivity.
Qed.

(** C10: the overlap is symmetric and never negative; it is 0 exactly
    when the two rectangles share no pixel; and [get_active_monitor]
    returns the same monitor (or raises the same exception) when the key
    passes its two arguments the other way round. *)
Theorem get_overlapping_area_symmetric :
  forall r1 r2 : Rect.t,
    get_overlapping_area r1 r2 = get_overlapping_area r2 r1
    /\ 0 <= get_overlapping_area r1 r2
    /\ (get_overlapping_area r1 r2 = 0 <->
        ~ exists px py, contains r1 px py /\ contains r2 px py)
    /\ (forall env,
          get_active_monitor env =
          (geometry <- get_geometry ;;
           let geometry := GeometryContainer.parent geometry in
           monitors <- get_monitors ;;
           py_max (fun monitor => get_overlapping_area monitor geometry)
                  monitors) env).
Proof.
  intros r1 r2.
  split; [apply get_overlapping_area_comm |].
  split; [unfold get_overlapping_area; simpl; nia |].
  split.
  - unfold get_overlapping_area, contains; simpl. split.
    + intros H0 (px & py & (Hx1 & Hy1) & (Hx2 & Hy2)).
      assert (0 < Z.min (Rect.x r1 + Rect.width r1) (Rect.x r2 + Rect.width r2)
                  - Z.max (Rect.x r1) (Rect.x r2)) by lia.
      assert (0 < Z.min (Rect.y r1 + Rect.height r1) (Rect.y r2 + Rect.height r2)
                  - Z.max (Rect.y r1) (Rect.y r2)) by lia.
      nia.
    + intros Hnone.
      destruct (Z_le_gt_dec
                  (Z.min (Rect.x r1 + Rect.width r1) (Rect.x r2 + Rect.width r2)
                   - Z.max (Rect.x r1) (Rect.x r2)) 0) as [Hw | Hw];
        [rewrite (Z.max_r _ 0 Hw); lia |].
      destruct (Z_le_gt_dec
                  (Z.min (Rect.y r1 + Rect.height r1) (Rect.y r2 + Rect.height r2)
                   - Z.max (Rect.y r1) (Rect.y r2)) 0) as [Hh | Hh];
        [rewrite (Z.max_r _ 0 Hh); lia |].
      exfalso. apply Hnone.
      exists (Z.max (Rect.x r1) (Rect.x r2)), (Z.max (Rect.y r1) (Rect.y r2)).
      lia.
  - intros env. unfold get_active_monitor, bind, get_geometry, get_monitors.
    destruct (Env.geometry env) as [e | g]; [reflexivity |].
    destruct (Env.monitors env) as [e | [| m ms]]; try reflexivity.
    unfold py_max, ret.
    rewrite (max_from_ext (get_overlapping_area (GeometryContainer.parent g))
               (fun monitor => get_overlapping_area monitor (GeometryContainer.parent g))
               (fun a => get_overlapping_area_comm _ a)).
    reflexivity.
Qed.

Example overlap_of_apart_rectangles :
  get_overlapping_area (Rect.mk 0 0 10 10) (Rect.mk 20 0 10 10) = 0
  /\ get_overlapping_area (Rect.mk 0 0 10 10) (Rect.mk 5 5 10 10) = 25.
Proof. split; reflexivity. Qed.

(** ** Running computations *)

Lemma bind_ret_l {A B} (a : A) (k : A -> M B) (env : Env.t) :
  bind (ret a) k env = k a env.
Proof. unfold bind, ret. destruct (k a env); reflexivity. Qed.

Lemma bind_silent {A B} {m : M A} (k : A -> M B) {env : Env.t} {a : A} :
  m env = ([], inr a) -> bind m k env = k a env.
Proof. intros Hm. unfold bind. rewrite Hm. destruct (k a env); reflexivity. Qed.

Lemma bind_run {A B} {m : M A} {k : A -> M B} {env : Env.t} {tr1 a tr2 r} :
  m env = (tr1, inr a) -> k a env = (tr2, r) ->
  bind m k env = (tr1 ++ tr2, r).
Proof. intros Hm Hk. unfold bind. rewrite Hm, Hk. reflexivity. Qed.

Lemma bind_raise {A B} {m : M A} (k : A -> M B) {env : Env.t} {tr e} :
  m env = (tr, inl e) -> bind m k env = (tr, inl e).
Proof. intros Hm. unfold bind. rewrite Hm. reflexivity. Qed.

Lemma bind_ok_inv {A B} (m : M A) (k : A -> M B) (env : Env.t) tr b :
  bind m k env = (tr, inr b) ->
  exists tr1 a tr2,
    m env = (tr1, inr a) /\ k a env = (tr2, inr b) /\ tr = tr1 ++ tr2.
Proof.
  unfold bind. destruct (m env) as [tr1 [e | a]]; [discriminate |].
  destruct (k a env) as [tr2 r] eqn:Hk. intros H. injection H as <- ->.
  exists tr1, a, tr2. auto.
Qed.

Lemma bind_silent_inv {A B} (m : M A) (k : A -> M B) (env : Env.t) (b : B) :
  bind m k env = ([], inr b) ->
  exists a, m env = ([], inr a) /\ k a env = ([], inr b).
Proof.
  intros H. apply bind_ok_inv in H.
  destruct H as (tr1 & a & tr2 & Hm & Hk & Htr).
  symmetry in Htr. apply app_eq_nil in Htr. destruct Htr as [-> ->].
  exists a. auto.
Qed.

Ltac silent_step H :=
  apply bind_silent_inv in H;
  let a := fresh "a" in
  let Ha := fresh "Ha" in
  destruct H as (a & Ha & H).

Lemma debug_run (line : string) (env : Env.t) :
  debug line env = (dbg env line, inr tt).
Proof. reflexivity. Qed.

Lemma getitem_some {K V} `{Eqb K} (d : dict K V) (k : K) (v : V) :
  dict_get d k = Some v -> getitem d k = ret v.
Proof. intros Hd. unfold getitem. rewrite Hd. reflexivity. Qed.

Lemma getitem_opposites (d : Direction) :
  getitem opposites d = ret (spec_opposite d).
Proof. apply getitem_some, opposites_lookup. Qed.

Section Responsive.

Variables (env : Env.t) (g : GeometryContainer.t) (m : Rect.t) (ms : list Rect.t).
Hypothesis Hgeometry : Env.geometry env = inr g.
Hypothesis Hmonitors : Env.monitors env = inr (m :: ms).

Lemma get_geometry_run : get_geometry env = ([], inr g).
Proof. unfold get_geometry. rewrite Hgeometry. reflexivity. Qed.

Lemma _move_run (x y w h : Z) :
  _move x y w h env = attempt g x y w h.
Proof.
  unfold _move, get_decoration_dimensions, e_setMoveResizeWindow, attempt.
  unfold bind, emit, get_geometry, ret.
  rewrite Hgeometry. cbn [decoration WH.w WH.h].
  destruct (card32 _ && card32 _ && card32 _ && card32 _); reflexivity.
Qed.

Lemma get_active_monitor_run :
  get_active_monitor env = ([], inr (active_monitor g m ms)).
Proof.
  unfold get_active_monitor, bind, get_geometry, get_monitors.
  rewrite Hgeometry, Hmonitors. reflexivity.
Qed.

Lemma get_screen_run : get_screen env = ([], inr (active_screen g m ms)).
Proof.
  unfold get_screen, bind. rewrite get_active_monitor_run. reflexivity.
Qed.

Lemma maximise_run :
  maximise env =
  (dbg env (tab ++ tab ++ "maximise()")%string
   ++ fst (attempt g (Rect.x (active_monitor g m ms))
             (Rect.y (active_monitor g m ms))
             (Rect.width (active_monitor g m ms))
             (Rect.height (active_monitor g m ms))),
   snd (attempt g (Rect.x (active_monitor g m ms))
          (Rect.y (active_monitor g m ms))
          (Rect.width (active_monitor g m ms))
          (Rect.height (active_monitor g m ms)))).
Proof.
  unfold maximise. eapply bind_run; [apply debug_run |].
  rewrite (bind_silent _ get_screen_run), _move_run.
  apply surjective_pairing.
Qed.

Lemma move_run (direction : Direction) :
  exists pos dim,
    dict_get (Screen.anchors (active_screen g m ms)) direction = Some pos
    /\ dict_get (Screen.sizes (active_screen g m ms)) direction = Some dim
    /\ move direction env =
       (dbg env (tab ++ tab ++ "move(" ++ str direction ++ ")")%string
        ++ fst (attempt g (XY.x pos) (XY.y pos) (WH.w dim) (WH.h dim)),
        snd (attempt g (XY.x pos) (XY.y pos) (WH.w dim) (WH.h dim))).
Proof.
  destruct direction; do 2 eexists;
    (split; [reflexivity |]); (split; [reflexivity |]);
    unfold move; (eapply bind_run; [apply debug_run |]);
    rewrite (bind_silent _ get_screen_run);
    (erewrite getitem_some by reflexivity); rewrite bind_ret_l;
    (erewrite getitem_some by reflexivity); rewrite bind_ret_l;
    rewrite _move_run; apply surjective_pairing.
Qed.

Lemma cornermove_run (c : Corner) :
  In c canonical_corners ->
  exists xy,
    dict_get (Screen.corneranchors (active_screen g m ms)) c = Some xy
    /\ cornermove c env =
       (dbg env (tab ++ tab ++ "submove(" ++ repr_corner c ++ ")")%string
        ++ fst (attempt g (XY.x xy) (XY.y xy)
                  (WH.w (Screen.cornersize (active_screen g m ms)))
                  (WH.h (Screen.cornersize (active_screen g m ms)))),
        snd (attempt g (XY.x xy) (XY.y xy)
               (WH.w (Screen.cornersize (active_screen g m ms)))
               (WH.h (Screen.cornersize (active_screen g m ms))))).
Proof.
  intros Hc. unfold canonical_corners in Hc; simpl in Hc.
  destruct Hc as [<- | [<- | [<- | [<- | []]]]]; eexists;
    (split; [reflexivity |]);
    unfold cornermove; (eapply bind_run; [apply debug_run |]);
    rewrite (bind_silent _ get_screen_run);
    (erewrite getitem_some by reflexivity); rewrite bind_ret_l;
    rewrite _move_run; apply surjective_pairing.
Qed.

End Responsive.

(** ** Decoration insets *)

Lemma card32_spec (n : Z) : card32 n = true <-> 0 <= n < 2 ^ 32.
Proof.
  unfold card32. rewrite andb_true_iff, Z.leb_le, Z.ltb_lt. reflexivity.
Qed.

Lemma attempt_fits (g : GeometryContainer.t) (x y w h : Z) :
  0 <= x + WH.w (decoration g) / 2 < 2 ^ 32 ->
  0 <= y + WH.h (decoration g) - WH.w (decoration g) / 2 < 2 ^ 32 ->
  0 <= w - WH.w (decoration g) < 2 ^ 32 ->
  0 <= h - WH.h (decoration g) < 2 ^ 32 ->
  attempt g x y w h = (requests g x y w h, inr tt).
Proof.
  intros Hx Hy Hw Hh. unfold attempt.
  apply card32_spec in Hx, Hy, Hw, Hh. rewrite Hx, Hy, Hw, Hh. reflexivity.
Qed.

Lemma attempt_refused (g : GeometryContainer.t) (x y w h : Z) :
  ~ (0 <= x + WH.w (decoration g) / 2 < 2 ^ 32
     /\ 0 <= y + WH.h (decoration g) - WH.w (decoration g) / 2 < 2 ^ 32
     /\ 0 <= w - WH.w (decoration g) < 2 ^ 32
     /\ 0 <= h - WH.h (decoration g) < 2 ^ 32) ->
  attempt g x y w h
  = ([ setWmState 0 "_NET_WM_STATE_MAXIMIZED_HORZ";
       setWmState 0 "_NET_WM_STATE_MAXIMIZED_VERT" ],
     inl OverflowError).
Proof.
  intros Hnot. unfold attempt.
  destruct (card32 (x + WH.w (decoration g) / 2)) eqn:Hx; [| reflexivity].
  destruct (card32 (y + WH.h (decoration g) - WH.w (decoration g) / 2)) eqn:Hy;
    [| reflexivity].
  destruct (card32 (w - WH.w (decoration g))) eqn:Hw; [| reflexivity].
  destruct (card32 (h - WH.h (decoration g))) eqn:Hh; [| reflexivity].
  exfalso. apply Hnot. rewrite <- !card32_spec. auto.
Qed.

Lemma attempt_outcome (g : GeometryContainer.t) (x y w h : Z) :
  snd (attempt g x y w h) = inr tt
  \/ snd (attempt g x y w h) = inl OverflowError.
Proof.
  unfold attempt.
  destruct (card32 _ && card32 _ && card32 _ && card32 _); auto.
Qed.

(** C7, as the code has it: with decoration insets [iw] by [ih] (the
    frame's size minus the window's), [_move x y w h] calls
    [setMoveResizeWindow] with the position [(x + iw / 2, y + ih - iw /
    2)] and the size [(w - iw, h - ih)]: exact integers, the half
    rounded down, nothing clamped.  When the four values fit unsigned 32
    bits (a width or height of 0 among them) that request is issued and
    flushed; when one is negative or too large the call raises
    [OverflowError] after the two unmaximise requests, and neither a
    move nor the flush is issued.  No other move is ever issued. *)
Theorem _move_applies_insets :
  forall (x y w h : Z) (env : Env.t) (g : GeometryContainer.t),
    Env.geometry env = inr g ->
    let iw :=
      Rect.width (GeometryContainer.parent g)
      - Rect.width (GeometryContainer.window g) in
    let ih :=
      Rect.height (GeometryContainer.parent g)
      - Rect.height (GeometryContainer.window g) in
    let final_x := x + iw / 2 in
    let final_y := y + ih - iw / 2 in
    let final_w := w - iw in
    let final_h := h - ih in
    get_decoration_dimensions env = ([], inr (WH.mk iw ih))
    /\ (0 <= final_x < 2 ^ 32 -> 0 <= final_y < 2 ^ 32 ->
        0 <= final_w < 2 ^ 32 -> 0 <= final_h < 2 ^ 32 ->
        _move x y w h env =
        ([ setWmState 0 "_NET_WM_STATE_MAXIMIZED_HORZ";
           setWmState 0 "_NET_WM_STATE_MAXIMIZED_VERT";
           setMoveResizeWindow final_x final_y final_w final_h;
           flush ],
         inr tt))
    /\ (~ (0 <= final_x < 2 ^ 32 /\ 0 <= final_y < 2 ^ 32
           /\ 0 <= final_w < 2 ^ 32 /\ 0 <= final_h < 2 ^ 32) ->
        _move x y w h env =
        ([ setWmState 0 "_NET_WM_STATE_MAXIMIZED_HORZ";
           setWmState 0 "_NET_WM_STATE_MAXIMIZED_VERT" ],
         inl OverflowError))
    /\ (forall a b c d,
          In (setMoveResizeWindow a b c d) (fst (_move x y w h env)) ->
          (a, b, c, d) = (final_x, final_y, final_w, final_h)).
Proof.
  intros x y w h env g Hg iw ih final_x final_y final_w final_h.
  assert (Hdim : get_decoration_dimensions env = ([], inr (WH.mk iw ih))).
  { unfold get_decoration_dimensions.
    rewrite (bind_silent _ (get_geometry_run env g Hg)). reflexivity. }
  split; [exact Hdim |].
  rewrite (_move_run env g Hg).
  split; [intros Hx Hy Hw Hh; apply attempt_fits; assumption |].
  split; [intros Hnot; apply attempt_refused; exact Hnot |].
  intros a b c d. unfold attempt.
  destruct (card32 _ && card32 _ && card32 _ && card32 _); cbn [fst requests In].
  - intros [H | [H | [H | [H | []]]]]; try discriminate H.
    injection H as <- <- <- <-. reflexivity.
  - intros [H | [H | []]]; discriminate H.
Qed.

(** A target exactly as large as the insets: the size asked for is 0 by
    0, and it is asked for. *)
Lemma _move_applies_insets_witness :
  _move 0 0 10 35 example_env =
  ([ setWmState 0 "_NET_WM_STATE_MAXIMIZED_HORZ";
     setWmState 0 "_NET_WM_STATE_MAXIMIZED_VERT";
     setMoveResizeWindow 5 30 0 0;
     flush ],
   inr tt).
Proof.
  apply (proj1 (proj2 (_move_applies_insets 0 0 10 35 example_env
                         example_geometry eq_refl)));
    vm_compute; (split; [discriminate | reflexivity]).
Defined.

(** A target narrower and lower than the insets: the size would be -5
    by -15, the call raises, and no move reaches the display. *)
Lemma _move_negative_size_counterexample :
  _move 0 0 5 20 example_env =
  ([ setWmState 0 "_NET_WM_STATE_MAXIMIZED_HORZ";
     setWmState 0 "_NET_WM_STATE_MAXIMIZED_VERT" ],
   inl OverflowError)
  /\ ~ In (setMoveResizeWindow 5 30 (-5) (-15))
          (fst (_move 0 0 5 20 example_env)).
Proof.
  split; [reflexivity |].
  simpl. intros [H | [H | []]]; discriminate H.
Qed.

(** ** The transition *)

(** [move_command_from] with the lookup of the opposite resolved. *)
Lemma move_command_from_eq (windowstate : option Tiling) (direction : Direction)
    (env : Env.t) :
  move_command_from windowstate direction env =
  match windowstate with
  | None => move direction env
  | Some st =>
      if eqb st (AtDirection direction) then ([], inr tt)
      else if eqb st (AtDirection (spec_opposite direction)) then maximise env
      else
        match st with
        | AtCorner c =>
            match dict_get cornerstates c with
            | Some directions =>
                move (dict_get_default directions direction direction) env
            | None => ([], inl TypeError)
            end
        | AtDirection current => cornermove (corner current direction) env
        end
  end.
Proof.
  destruct windowstate as [st |]; [| reflexivity].
  unfold move_command_from.
  destruct (eqb st (AtDirection direction)); [reflexivity |].
  rewrite getitem_opposites, bind_ret_l.
  destruct (eqb st (AtDirection (spec_opposite direction))); [reflexivity |].
  destruct st as [current | c]; [reflexivity |].
  destruct (dict_get cornerstates c); reflexivity.
Qed.

(** C9: [corner] does not depend on the order of its arguments and
    returns the sorted pair; the keys of [cornerstates] and of every
    screen's [corneranchors] are exactly the four canonical pairs, which
    are the pairs of two directions that are neither equal nor opposite,
    in sorted order; the corner that [move_command] builds from a half
    [d1] and a requested direction [d2] that is neither [d1] nor its
    opposite is one of them, so it is never a pair of opposite
    directions; and [move_command] builds a corner in no other case:
    from the half [d2] it returns, from the opposite half it
    maximises. *)
Theorem corner_canonical_and_closed :
  forall d1 d2 : Direction,
    corner d1 d2 = corner d2 d1
    /\ String.leb (str (fst (corner d1 d2))) (str (snd (corner d1 d2))) = true
    /\ keys cornerstates = canonical_corners
    /\ (forall x y w h,
          keys (Screen.corneranchors (Screen.init x y w h)) = canonical_corners)
    /\ NoDup canonical_corners
    /\ List.length canonical_corners = 4%nat
    /\ (forall c, In c canonical_corners <->
                  fst c <> snd c /\ fst c <> spec_opposite (snd c)
                  /\ corner (fst c) (snd c) = c)
    /\ (d1 <> d2 -> d1 <> spec_opposite d2 ->
        In (corner d1 d2) canonical_corners
        /\ fst (corner d1 d2) <> spec_opposite (snd (corner d1 d2)))
    /\ (forall env,
          move_command_from (Some (AtDirection d1)) d2 env =
          if eqb d1 d2 then ([], inr tt)
          else if eqb d1 (spec_opposite d2) then maximise env
          else cornermove (corner d1 d2) env).
Proof.
  intros d1 d2.
  split; [apply corner_comm |].
  split; [apply corner_sorted |].
  split; [reflexivity |].
  split; [intros; reflexivity |].
  split.
  { unfold canonical_corners.
    repeat (constructor; [simpl; intuition discriminate |]). constructor. }
  split; [reflexivity |].
  split.
  { intros [a b]; split.
    - intros Hin. destruct (canonical_not_opposite _ Hin) as [H1 H2].
      repeat split; try assumption.
      unfold canonical_corners in Hin; simpl in Hin.
      destruct Hin as [E | [E | [E | [E | []]]]];
        injection E as <- <-; reflexivity.
    - simpl. intros (Hne & Hopp & Hc). rewrite <- Hc.
      apply corner_canonical; assumption. }
  split.
  { intros Hne Hopp.
    pose proof (corner_canonical d1 d2 Hne Hopp) as Hin.
    split; [assumption |].
    apply (canonical_not_opposite _ Hin). }
  intros env. rewrite move_command_from_eq. reflexivity.
Qed.

Lemma corner_canonical_and_closed_witness :
  LEFT <> UP /\ LEFT <> spec_opposite UP
  /\ In (corner LEFT UP) canonical_corners
  /\ fst (corner LEFT UP) <> spec_opposite (snd (corner LEFT UP)).
Proof.
  split; [discriminate |]. split; [discriminate |].
  apply (corner_canonical_and_closed LEFT UP); discriminate.
Defined.

Lemma perform_outcome (t : Target) (env : Env.t) :
  responsive env ->
  (forall c, t = Quarter c -> In c canonical_corners) ->
  snd (perform t env) = inr tt \/ snd (perform t env) = inl OverflowError.
Proof.
  intros (g & m & ms & Hg & Hm) Hvalid. destruct t as [| d | c |]; simpl.
  - left. reflexivity.
  - destruct (move_run env g m ms Hg Hm d) as (pos & dim & _ & _ & ->).
    apply attempt_outcome.
  - destruct (cornermove_run env g m ms Hg Hm c (Hvalid c eq_refl))
      as (xy & _ & ->).
    apply attempt_outcome.
  - rewrite (maximise_run env g m ms Hg Hm). apply attempt_outcome.
Qed.

(** C1: on each of the nine positions and each of the four directions
    [move_command] does what the specification's rules say, in their
    order: untiled goes to the requested half; the requested half itself
    is left alone; the opposite half is maximised; a corner goes to the
    half its table names (the requested direction itself when it is not
    a key); any other half goes to the quarter [corner current
    requested].  The choice is a function of the pair and is made for
    every pair: whenever the window and monitor queries answer, the
    dispatch raises nothing of its own, and the command returns unless
    the display's move request is refused with [OverflowError]. *)
Theorem move_command_follows_rules :
  forall (windowstate : option Tiling) (direction : Direction),
    In windowstate positions ->
    (forall env,
        move_command_from windowstate direction env =
        perform (spec_next_position windowstate direction) env)
    /\ (forall env, responsive env ->
          snd (move_command_from windowstate direction env) = inr tt
          \/ snd (move_command_from windowstate direction env)
             = inl OverflowError)
    /\ List.length positions = 9%nat
    /\ NoDup positions.
Proof.
  intros ws d Hin.
  assert (Heq : forall env,
             move_command_from ws d env = perform (spec_next_position ws d) env).
  { intros env. rewrite move_command_from_eq.
    unfold positions in Hin; simpl in Hin.
    repeat (destruct Hin as [<- | Hin]; [destruct d; reflexivity |]).
    destruct Hin. }
  split; [exact Heq |].
  split.
  - intros env Henv. rewrite Heq. apply perform_outcome; [assumption |].
    unfold positions in Hin; simpl in Hin.
    repeat (destruct Hin as [<- | Hin];
            [destruct d; intros c Hc; try discriminate Hc;
             injection Hc as <-; unfold canonical_corners; simpl; auto 6 |]).
    destruct Hin.
  - split; [reflexivity |].
    unfold positions; simpl.
    repeat (constructor; [simpl; intuition discriminate |]). constructor.
Qed.

Lemma move_command_follows_rules_witness :
  In (Some (AtCorner (LEFT, UP))) positions
  /\ forall env,
       move_command_from (Some (AtCorner (LEFT, UP))) DOWN env = move LEFT env.
Proof.
  assert (Hin : In (Some (AtCorner (LEFT, UP))) positions)
    by (unfold positions; simpl; auto 8).
  split; [exact Hin |].
  exact (proj1 (move_command_follows_rules (Some (AtCorner (LEFT, UP))) DOWN Hin)).
Defined.

(** The corner cycle of the specification: left then up reaches the
    quarter, down from there the left half, right from there the upper
    half. *)
Example corner_cycle :
  spec_next_position None LEFT = Half LEFT
  /\ spec_next_position (Some (AtDirection LEFT)) UP = Quarter (LEFT, UP)
  /\ spec_next_position (Some (AtCorner (LEFT, UP))) DOWN = Half LEFT
  /\ spec_next_position (Some (AtCorner (LEFT, UP))) RIGHT = Half UP.
Proof. repeat split. Qed.

(** ** Doing nothing *)

Lemma _move_not_silent (x y w h : Z) (env : Env.t) :
  _move x y w h env <> ([], inr tt).
Proof.
  intros H. unfold _move in H. apply bind_silent_inv in H.
  destruct H as (a & Hemit & _). discriminate Hemit.
Qed.

Lemma move_not_silent (direction : Direction) (env : Env.t) :
  move direction env <> ([], inr tt).
Proof.
  intros H. unfold move in H. do 4 silent_step H.
  exact (_move_not_silent _ _ _ _ _ H).
Qed.

Lemma maximise_not_silent (env : Env.t) : maximise env <> ([], inr tt).
Proof.
  intros H. unfold maximise in H. do 2 silent_step H.
  exact (_move_not_silent _ _ _ _ _ H).
Qed.

Lemma cornermove_not_silent (c : Corner) (env : Env.t) :
  cornermove c env <> ([], inr tt).
Proof.
  intros H. unfold cornermove in H. do 3 silent_step H.
  exact (_move_not_silent _ _ _ _ _ H).
Qed.

(** C5: [move_command] returns without a single effect (no request to
    the display, so nothing about the window changes) exactly when the
    window is tiled to the requested direction: that pair does nothing,
    and every other pair of a window state and a direction either issues
    requests or raises.  The same holds with the state read by
    [get_windowstate]. *)
Theorem only_same_direction_is_noop :
  forall (windowstate : option Tiling) (direction : Direction) (env : Env.t),
    move_command_from (Some (AtDirection direction)) direction env = ([], inr tt)
    /\ (move_command_from windowstate direction env = ([], inr tt)
        <-> windowstate = Some (AtDirection direction))
    /\ (move_command direction env = ([], inr tt)
        <-> get_windowstate env = ([], inr (Some (AtDirection direction)))).
Proof.
  assert (Hfrom : forall ws d env,
             move_command_from ws d env = ([], inr tt)
             <-> ws = Some (AtDirection d)).
  { intros ws d env. rewrite move_command_from_eq. split.
    - destruct ws as [st |]; [| intros H; elim (move_not_silent _ _ H)].
      destruct (eqb_spec st (AtDirection d)) as [-> | _]; [reflexivity |].
      destruct (eqb st (AtDirection (spec_opposite d)));
        [intros H; elim (maximise_not_silent _ H) |].
      destruct st as [current | c];
        [intros H; elim (cornermove_not_silent _ _ H) |].
      destruct (dict_get cornerstates c);
        [intros H; elim (move_not_silent _ _ H) | discriminate].
    - intros ->. rewrite eqb_refl. reflexivity. }
  intros ws d env.
  split; [apply Hfrom; reflexivity |].
  split; [apply Hfrom |].
  unfold move_command. split.
  - intros H. apply bind_silent_inv in H. destruct H as (a & Hws & H).
    apply Hfrom in H. subst a. exact Hws.
  - intros H. rewrite (bind_silent _ H). apply Hfrom. reflexivity.
Qed.

(** The specification's scenario: a frame on the left half of a 1920 by
    1080 screen, left pressed again. *)
Lemma only_same_direction_is_noop_witness :
  get_windowstate tiled_left_env = ([], inr (Some (AtDirection LEFT)))
  /\ move_command LEFT tiled_left_env = ([], inr tt).
Proof.
  assert (Hws : get_windowstate tiled_left_env
                = ([], inr (Some (AtDirection LEFT)))) by reflexivity.
  split; [exact Hws |].
  exact (proj2 (proj2 (proj2 (only_same_direction_is_noop
                                None LEFT tiled_left_env))) Hws).
Defined.

(** ** Mirror *)

(** C6: when the window is tiled to the side opposite the requested
    direction, [move_command] runs [maximise] (the [Full] outcome): one
    [_move] to the rectangle [(screen.x, screen.y, screen.w, screen.h)]
    of the active screen, which is the rectangle of the active monitor.
    What that [_move] comes to is [attempt] on that rectangle: the
    request with the insets applied, or its refusal by the display. *)
Theorem mirror_maximises :
  forall (direction : Direction) (env : Env.t) g m ms,
    Env.geometry env = inr g ->
    Env.monitors env = inr (m :: ms) ->
    let screen := active_screen g m ms in
    exists opposite,
      dict_get opposites direction = Some opposite
      /\ opposite = spec_opposite direction
      /\ spec_next_position (Some (AtDirection opposite)) direction = Full
      /\ (forall env',
            move_command_from (Some (AtDirection opposite)) direction env'
            = maximise env')
      /\ get_screen env = ([], inr screen)
      /\ move_command_from (Some (AtDirection opposite)) direction env
         = (dbg env (tab ++ tab ++ "maximise()")%string
            ++ fst (_move (Screen.x screen) (Screen.y screen)
                          (Screen.w screen) (Screen.h screen) env),
            snd (_move (Screen.x screen) (Screen.y screen)
                       (Screen.w screen) (Screen.h screen) env))
      /\ _move (Screen.x screen) (Screen.y screen)
               (Screen.w screen) (Screen.h screen) env
         = attempt g (Screen.x screen) (Screen.y screen)
                   (Screen.w screen) (Screen.h screen)
      /\ (Screen.x screen, Screen.y screen, Screen.w screen, Screen.h screen)
         = (Rect.x (active_monitor g m ms), Rect.y (active_monitor g m ms),
            Rect.width (active_monitor g m ms),
            Rect.height (active_monitor g m ms)).
Proof.
  intros d env g m ms Hg Hm screen. exists (spec_opposite d).
  split; [apply opposites_lookup |]. split; [reflexivity |].
  split; [destruct d; reflexivity |].
  assert (Hdispatch : forall env',
             move_command_from (Some (AtDirection (spec_opposite d))) d env'
             = maximise env').
  { intros env'. rewrite move_command_from_eq.
    replace (eqb (AtDirection (spec_opposite d)) (AtDirection d)) with false
      by (destruct d; reflexivity).
    rewrite eqb_refl. reflexivity. }
  split; [exact Hdispatch |].
  split; [apply (get_screen_run env g m ms Hg Hm) |].
  assert (Hmove : _move (Screen.x screen) (Screen.y screen)
                        (Screen.w screen) (Screen.h screen) env
                  = attempt g (Screen.x screen) (Screen.y screen)
                            (Screen.w screen) (Screen.h screen))
    by apply (_move_run env g Hg).
  split; [| split; [exact Hmove | reflexivity]].
  rewrite Hdispatch, Hmove.
  apply (maximise_run env g m ms Hg Hm).
Qed.

(** The specification's scenario: a frame on the left half of a 1920 by
    1080 screen, right pressed. *)
Lemma mirror_maximises_witness :
  move_command_from (Some (AtDirection LEFT)) RIGHT tiled_left_env
  = ([ setWmState 0 "_NET_WM_STATE_MAXIMIZED_HORZ";
       setWmState 0 "_NET_WM_STATE_MAXIMIZED_VERT";
       setMoveResizeWindow 5 30 1910 1045;
       flush ], inr tt).
Proof.
  destruct (mirror_maximises RIGHT tiled_left_env _ _ _ eq_refl eq_refl)
    as (opposite & Hopp & _ & _ & _ & _ & Hrun & _).
  injection Hopp as <-. exact Hrun.
Defined.

(** ** The classifier *)

Lemma stateinfo_init (x y w h : Z) :
  Screen.stateinfo (Screen.init x y w h) = map Some (enumerated x y w h).
Proof.
  rewrite Screen_init_eq. unfold Screen.stateinfo, enumerated. simpl.
  rewrite !Z.add_0_r. reflexivity.
Qed.

Lemma scan_enumerated (win_anchor win_size : Z * Z) (items : list item)
    (env : Env.t) :
  scan win_anchor win_size (map Some items) env =
  ([], inr (option_map state_of
              (find (fun i => eqb (win_anchor, win_size) (rect_of i)) items))).
Proof.
  induction items as [| [[state anchor] size] items IH].
  - reflexivity.
  - cbn [map scan find]. unfold rect_of at 1. cbn [fst snd].
    destruct (eqb (win_anchor, win_size)
                  (XY.x anchor, XY.y anchor, (WH.w size, WH.h size)));
      [reflexivity | exact IH].
Qed.

Lemma NoDup_map_injective {A B} (f : A -> B) (l : list A) (a b : A) :
  NoDup (map f l) -> In a l -> In b l -> f a = f b -> a = b.
Proof.
  induction l as [| c l IH]; simpl; [contradiction |].
  intros Hnd Ha Hb Hf. inversion Hnd as [| ? ? Hnotin Hnd']; subst.
  destruct Ha as [-> | Ha], Hb as [-> | Hb]; [reflexivity | | | auto].
  - exfalso. apply Hnotin. rewrite Hf. apply in_map. assumption.
  - exfalso. apply Hnotin. rewrite <- Hf. apply in_map. assumption.
Qed.

Lemma enumerated_NoDup (x y w h : Z) :
  3 < w -> 3 < h -> NoDup (map rect_of (enumerated x y w h)).
Proof.
  intros Hw Hh.
  destruct (twice_half w) as [Hw2 Hwm], (twice_half h) as [Hh2 Hhm].
  unfold enumerated, rect_of; simpl.
  repeat (constructor;
          [simpl; intros Hin;
           repeat (destruct Hin as [Hin | Hin]; [injection Hin; lia |]);
           exact Hin |]).
  constructor.
Qed.





(** C3: [get_windowstate] runs through the screen's items, the four
    directions in the order LEFT, RIGHT, UP, DOWN and then the four
    corners, and returns the state of the first item whose anchor and
    size are equal, integer for integer, to the origin and size of the
    window's frame.  It returns [None] exactly when no item is equal to
    the frame.  On a monitor wider and higher than 3 pixels no two items
    have the same anchor and size, so the item found is the only one
    equal to the frame. *)
Theorem get_windowstate_first_exact_match :
  forall (env : Env.t) g m ms,
    Env.geometry env = inr g ->
    Env.monitors env = inr (m :: ms) ->
    let monitor := active_monitor g m ms in
    let items :=
      enumerated (Rect.x monitor) (Rect.y monitor)
                 (Rect.width monitor) (Rect.height monitor) in
    let win :=
      ((Rect.x (GeometryContainer.parent g), Rect.y (GeometryContainer.parent g)),
       (Rect.width (GeometryContainer.parent g),
        Rect.height (GeometryContainer.parent g))) in
    Screen.stateinfo (active_screen g m ms) = map Some items
    /\ exists r,
        get_windowstate env = ([], inr r)
        /\ r = option_map state_of (find (fun i => eqb win (rect_of i)) items)
        /\ (r = None <-> forall i, In i items -> rect_of i <> win)
        /\ (forall st, r = Some st ->
              exists i, In i items /\ state_of i = st /\ rect_of i = win)
        /\ (3 < Rect.width monitor -> 3 < Rect.height monitor ->
            NoDup (map rect_of items)
            /\ forall i, In i items -> rect_of i = win -> r = Some (state_of i)).
Proof.
  intros env g m ms Hg Hm monitor items win.
  split; [apply stateinfo_init |].
  eexists. split.
  { unfold get_windowstate.
    rewrite (bind_silent _ (get_screen_run env g m ms Hg Hm)).
    rewrite (bind_silent _ (get_geometry_run env g Hg)).
    unfold active_screen. rewrite stateinfo_init. apply scan_enumerated. }
  fold monitor. fold items. fold win.
  split; [reflexivity |].
  destruct (find (fun i => eqb win (rect_of i)) items) as [j |] eqn:Hfind; simpl.
  - apply find_some in Hfind. destruct Hfind as [Hj Hjwin].
    apply eqb_eq in Hjwin.
    split; [split; [discriminate | intros Hnone; elim (Hnone j Hj); auto] |].
    split.
    + intros st Hst. injection Hst as <-. exists j. auto.
    + intros Hw Hh.
      pose proof (enumerated_NoDup (Rect.x monitor) (Rect.y monitor) _ _ Hw Hh)
        as Hnd.
      split; [exact Hnd |].
      intros i Hi Hiwin. f_equal. f_equal.
      apply (NoDup_map_injective rect_of items j i Hnd Hj Hi). congruence.
  - split.
    + split; [| reflexivity]. intros _ i Hi Hiwin.
      pose proof (find_none _ _ Hfind i Hi) as Hno. cbv beta in Hno.
      apply eqb_neq in Hno. auto.
    + split; [discriminate |].
      intros Hw Hh. split; [apply enumerated_NoDup; assumption |].
      intros i Hi Hiwin. exfalso.
      pose proof (find_none _ _ Hfind i Hi) as Hno. cbv beta in Hno.
      apply eqb_neq in Hno. auto.
Qed.

Lemma get_windowstate_first_exact_match_witness :
  get_windowstate tiled_left_env = ([], inr (Some (AtDirection LEFT)))
  /\ NoDup (map rect_of (enumerated 0 0 1920 1080)).
Proof.
  destruct (get_windowstate_first_exact_match tiled_left_env _ _ _
              eq_refl eq_refl) as (_ & r & Hrun & -> & _ & _ & Huniq).
  split; [exact Hrun |].
  apply Huniq; reflexivity.
Defined.

(** One pixel off is untiled, and so is the maximised frame: the full
    screen is not among the items. *)
Example get_windowstate_exact_only :
  get_windowstate
    (Env.mk (inr (GeometryContainer.mk (Rect.mk 5 30 950 1045)
                                       (Rect.mk 0 0 961 1080)))
            (inr [Rect.mk 0 0 1920 1080]) false)
  = ([], inr None)
  /\ get_windowstate
       (Env.mk (inr (GeometryContainer.mk (Rect.mk 5 30 1910 1045)
                                          (Rect.mk 0 0 1920 1080)))
               (inr [Rect.mk 0 0 1920 1080]) false)
     = ([], inr None).
Proof. split; reflexivity. Qed.

(** ** The consumer *)

Lemma get_screen_fails (env : Env.t) (e : exn) :
  query_fails env e -> get_screen env = ([], inl e).
Proof.
  unfold get_screen, get_active_monitor.
  unfold bind, get_geometry, get_monitors.
  intros [Hg | (g & Hg & [Hm | [Hm ->]])]; rewrite Hg; try rewrite Hm;
    reflexivity.
Qed.

Lemma move_command_fails (direction : Direction) (env : Env.t) (e : exn) :
  query_fails env e -> move_command direction env = ([], inl e).
Proof.
  intros Hfail. unfold move_command, get_windowstate.
  apply bind_raise, bind_raise, get_screen_fails, Hfail.
Qed.

Lemma CALLBACKS_lookup (direction : Direction) :
  dict_get CALLBACKS (str direction) = Some (move_command direction).
Proof. destruct direction; reflexivity. Qed.

Lemma consume_raise (callbacks : dict string Callback) (world : nat -> Env.t)
    (n : nat) (event : string) (rest : list string) callback tr e :
  dict_get callbacks event = Some callback ->
  callback (world n) = (tr, inl e) ->
  consume (event :: rest) callbacks world n = (tr, Crashed e rest).
Proof. intros Hcb Hrun. simpl. rewrite Hcb, Hrun. reflexivity. Qed.

Lemma consume_unhandled (callbacks : dict string Callback)
    (world : nat -> Env.t) (n : nat) (event : string) (rest : list string) :
  dict_get callbacks event = None ->
  consume (event :: rest) callbacks world n =
  (print ("unhandled event " ++ event)%string
   :: fst (consume rest callbacks world (S n)),
   snd (consume rest callbacks world (S n))).
Proof.
  intros Hcb. simpl. rewrite Hcb.
  destruct (consume rest callbacks world (S n)); reflexivity.
Qed.

Lemma consume_app_raise (callbacks : dict string Callback)
    (world : nat -> Env.t) (before : list string) :
  forall (n : nat) (event : string) (after : list string) callback
         tr_before tr e,
    consume before callbacks world n = (tr_before, Waiting) ->
    dict_get callbacks event = Some callback ->
    callback (world (n + List.length before)%nat) = (tr, inl e) ->
    consume (before ++ event :: after) callbacks world n
    = (tr_before ++ tr, Crashed e after).
Proof.
  induction before as [| ev before IH];
    intros n event after callback tr_before tr e Hbefore Hcb Hrun.
  - simpl in Hbefore. injection Hbefore as <-.
    rewrite Nat.add_0_r in Hrun. eapply consume_raise; eassumption.
  - cbn [List.length] in Hrun. rewrite Nat.add_succ_r in Hrun.
    cbn [app consume] in *.
    destruct (dict_get callbacks ev) as [cb |].
    + destruct (cb (world n)) as [tr1 [e1 | []]]; [discriminate |].
      destruct (consume before callbacks world (S n)) as [tr2 c] eqn:Hrest.
      injection Hbefore as <- ->.
      rewrite (IH (S n) event after callback tr2 tr e Hrest Hcb Hrun).
      rewrite app_assoc. reflexivity.
    + destruct (consume before callbacks world (S n)) as [tr2 c] eqn:Hrest.
      injection Hbefore as <- ->.
      rewrite (IH (S n) event after callback tr2 tr e Hrest Hcb Hrun).
      reflexivity.
Qed.

(** C4, as the code has it: when the window or monitor query of a
    command fails, [consume] does not catch the exception.  The events
    before it were handled; the failing command issues nothing; the
    exception leaves the loop, and the events queued behind it are left
    unconsumed.  (What is printed and skipped is an event that is not a
    key of the callbacks: [consume_unhandled].) *)
Theorem consume_failure_leaves_the_loop :
  forall (world : nat -> Env.t) (before after : list string)
         (direction : Direction) (n : nat) (tr_before : trace) (e : exn),
    consume before CALLBACKS world n = (tr_before, Waiting) ->
    query_fails (world (n + List.length before)%nat) e ->
    consume (before ++ str direction :: after) CALLBACKS world n
    = (tr_before, Crashed e after).
Proof.
  intros world before after d n tr_before e Hbefore Hfail.
  rewrite (consume_app_raise CALLBACKS world before n (str d) after
             (move_command d) tr_before [] e Hbefore
             (CALLBACKS_lookup d) (move_command_fails d _ e Hfail)).
  rewrite app_nil_r. reflexivity.
Qed.

Lemma consume_failure_leaves_the_loop_witness :
  let world :=
    fun n => match n with 2%nat => unfocused_env | _ => example_env end in
  consume ["up"; "sideways"; "left"; "right"] CALLBACKS world 0
  = ([ setWmState 0 "_NET_WM_STATE_MAXIMIZED_HORZ";
       setWmState 0 "_NET_WM_STATE_MAXIMIZED_VERT";
       setMoveResizeWindow 5 30 1910 505;
       flush;
       print "unhandled event sideways" ],
     Crashed AttributeError ["right"]).
Proof.
  intros world.
  apply (consume_failure_leaves_the_loop world ["up"; "sideways"] ["right"]
           LEFT 0 _ AttributeError).
  - reflexivity.
  - left. reflexivity.
Defined.

(** With no window focused when "left" is handled, the loop is left with
    [AttributeError] and "right" stays in the queue, although handling
    "right" in the next state of the display would have moved the
    window. *)
Lemma consume_stops_counterexample :
  let world :=
    fun n => match n with O => unfocused_env | S _ => example_env end in
  consume ["left"; "right"] CALLBACKS world 0
  = ([], Crashed AttributeError ["right"])
  /\ consume ["right"] CALLBACKS world 1
     = ([ setWmState 0 "_NET_WM_STATE_MAXIMIZED_HORZ";
          setWmState 0 "_NET_WM_STATE_MAXIMIZED_VERT";
          setMoveResizeWindow 965 30 950 1045;
          flush ], Waiting)
  /\ ~ survives_failures.
Proof.
  split; [reflexivity |]. split; [reflexivity |].
  intros Hsurvives.
  destruct (Hsurvives ["left"; "right"]
              (fun n => match n with O => unfocused_env | S _ => example_env end))
    as [tr Hrun].
  discriminate Hrun.
Qed.

(** * Further properties *)

(** ** The monitor choice *)

Lemma max_from_first_greatest {A} (key : A -> Z) (rest : list A) :
  forall best : A,
    let chosen := max_from key best rest in
    (forall a, In a (best :: rest) -> key a <= key chosen)
    /\ exists before after,
        best :: rest = before ++ chosen :: after
        /\ forall b, In b before -> key b < key chosen.
Proof.
  induction rest as [| item rest IH]; intros best; cbn [max_from].
  - split.
    + intros a [<- | []]. lia.
    + exists [], []. split; [reflexivity | intros b []].
  - destruct (Z.ltb_spec (key best) (key item)) as [Hlt | Hge].
    + destruct (IH item) as (Hmax & before & after & Hsplit & Hbefore).
      split.
      * intros a [<- | Ha]; [| apply Hmax, Ha].
        pose proof (Hmax item (or_introl eq_refl)). lia.
      * exists (best :: before), after. split.
        -- cbn [app]. rewrite <- Hsplit. reflexivity.
        -- intros b [<- | Hb]; [| apply Hbefore, Hb].
           pose proof (Hmax item (or_introl eq_refl)). lia.
    + destruct (IH best) as (Hmax & before & after & Hsplit & Hbefore).
      pose proof (Hmax best (or_introl eq_refl)) as Hbest.
      split.
      * intros a [<- | [<- | Ha]]; [exact Hbest | lia |].
        apply Hmax. right. exact Ha.
      * destruct before as [| b0 before].
        -- cbn [app] in Hsplit. injection Hsplit as Hc Hrest.
           exists [], (item :: rest). split.
           ++ cbn [app]. rewrite <- Hc. reflexivity.
           ++ intros b [].
        -- cbn [app] in Hsplit. injection Hsplit as Hb0 Hrest. subst b0.
           pose proof (Hbefore best (or_introl eq_refl)) as Hbc.
           exists (best :: item :: before), after. split.
           ++ cbn [app]. do 2 f_equal. exact Hrest.
           ++ intros b [<- | [<- | Hb]]; [exact Hbc | lia |].
              apply Hbefore. right. exact Hb.
Qed.

(** X1: [get_active_monitor] raises [ValueError] when there is no
    monitor; otherwise it returns the first monitor of the list whose
    overlap with the window's frame is the greatest: every monitor
    before it overlaps strictly less, none overlaps more.  A frame that
    overlaps no monitor gets the first monitor. *)
Theorem get_active_monitor_first_greatest :
  forall (env : Env.t) (g : GeometryContainer.t),
    Env.geometry env = inr g ->
    let overlap := get_overlapping_area (GeometryContainer.parent g) in
    (Env.monitors env = inr [] ->
     get_active_monitor env = ([], inl ValueError))
    /\ (forall m ms,
          Env.monitors env = inr (m :: ms) ->
          exists chosen before after,
            get_active_monitor env = ([], inr chosen)
            /\ m :: ms = before ++ chosen :: after
            /\ (forall b, In b before -> overlap b < overlap chosen)
            /\ (forall a, In a (m :: ms) -> overlap a <= overlap chosen)
            /\ ((forall a, In a (m :: ms) -> overlap a = 0) -> chosen = m)).
Proof.
  intros env g Hg overlap. split.
  - intros Hm. unfold get_active_monitor, bind, get_geometry, get_monitors.
    rewrite Hg, Hm. reflexivity.
  - intros m ms Hm.
    destruct (max_from_first_greatest overlap ms m)
      as (Hmax & before & after & Hsplit & Hbefore).
    exists (max_from overlap m ms), before, after.
    split; [apply (get_active_monitor_run env g m ms Hg Hm) |].
    split; [exact Hsplit |]. split; [exact Hbefore |]. split; [exact Hmax |].
    intros Hzero.
    assert (Hin : In (max_from overlap m ms) (m :: ms))
      by (rewrite Hsplit; apply in_elt).
    destruct before as [| b0 before].
    + cbn [app] in Hsplit. injection Hsplit as Hc _. symmetry. exact Hc.
    + cbn [app] in Hsplit. injection Hsplit as Hb0 _. subst b0.
      pose proof (Hbefore m (or_introl eq_refl)) as Hlt.
      rewrite (Hzero m (or_introl eq_refl)), (Hzero _ Hin) in Hlt. lia.
Qed.

Lemma get_active_monitor_first_greatest_witness :
  exists chosen before after,
    get_active_monitor two_monitors_env = ([], inr chosen)
    /\ [Rect.mk 0 0 1920 1080; Rect.mk 1920 0 1280 1024]
       = before ++ chosen :: after
    /\ (forall b, In b before ->
          get_overlapping_area (Rect.mk 1800 200 310 235) b
          < get_overlapping_area (Rect.mk 1800 200 310 235) chosen)
    /\ (forall a, In a [Rect.mk 0 0 1920 1080; Rect.mk 1920 0 1280 1024] ->
          get_overlapping_area (Rect.mk 1800 200 310 235) a
          <= get_overlapping_area (Rect.mk 1800 200 310 235) chosen)
    /\ ((forall a, In a [Rect.mk 0 0 1920 1080; Rect.mk 1920 0 1280 1024] ->
           get_overlapping_area (Rect.mk 1800 200 310 235) a = 0) ->
        chosen = Rect.mk 0 0 1920 1080).
Proof.
  exact (proj2 (get_active_monitor_first_greatest two_monitors_env _ eq_refl)
           _ _ eq_refl).
Defined.

Example straddling_window_goes_to_the_larger_share :
  get_active_monitor two_monitors_env = ([], inr (Rect.mk 1920 0 1280 1024)).
Proof. reflexivity. Qed.

Lemma get_overlapping_area_le (r1 r2 : Rect.t) :
  0 <= Rect.width r1 -> 0 <= Rect.height r1 ->
  get_overlapping_area r1 r2 <= Rect.width r1 * Rect.height r1.
Proof.
  intros Hw Hh. unfold get_overlapping_area. cbv zeta.
  apply Z.mul_le_mono_nonneg; lia.
Qed.

Lemma get_overlapping_area_within (r1 r2 : Rect.t) :
  0 <= Rect.width r1 -> 0 <= Rect.height r1 -> within r1 r2 ->
  get_overlapping_area r1 r2 = Rect.width r1 * Rect.height r1.
Proof.
  intros Hw Hh (Hx1 & Hx2 & Hy1 & Hy2). unfold get_overlapping_area. cbv zeta.
  f_equal; lia.
Qed.

(** X2: when the window's frame (of non-negative size) lies within one
    of the monitors, the monitor [get_active_monitor] returns overlaps
    the frame by the frame's whole area, and no rectangle overlaps it by
    more. *)
Theorem get_active_monitor_shows_whole_window :
  forall (env : Env.t) (g : GeometryContainer.t) (m : Rect.t) (ms : list Rect.t)
         (monitor : Rect.t),
    Env.geometry env = inr g ->
    Env.monitors env = inr (m :: ms) ->
    0 <= Rect.width (GeometryContainer.parent g) ->
    0 <= Rect.height (GeometryContainer.parent g) ->
    In monitor (m :: ms) ->
    within (GeometryContainer.parent g) monitor ->
    exists chosen,
      get_active_monitor env = ([], inr chosen)
      /\ In chosen (m :: ms)
      /\ get_overlapping_area (GeometryContainer.parent g) chosen
         = Rect.width (GeometryContainer.parent g)
           * Rect.height (GeometryContainer.parent g)
      /\ (forall other,
            get_overlapping_area (GeometryContainer.parent g) other
            <= get_overlapping_area (GeometryContainer.parent g) chosen).
Proof.
  intros env g m ms monitor Hg Hm Hw Hh Hin Hwithin.
  destruct (max_from_first_greatest
              (get_overlapping_area (GeometryContainer.parent g)) ms m)
    as (Hmax & before & after & Hsplit & _).
  exists (active_monitor g m ms).
  split; [apply (get_active_monitor_run env g m ms Hg Hm) |].
  fold (active_monitor g m ms) in Hmax, Hsplit.
  split; [rewrite Hsplit; apply in_elt |].
  pose proof (Hmax monitor Hin) as Hle.
  rewrite (get_overlapping_area_within _ _ Hw Hh Hwithin) in Hle.
  pose proof (get_overlapping_area_le (GeometryContainer.parent g)
                (active_monitor g m ms) Hw Hh).
  split; [lia |].
  intros other.
  pose proof (get_overlapping_area_le (GeometryContainer.parent g) other Hw Hh).
  lia.
Qed.

Lemma get_active_monitor_shows_whole_window_witness :
  exists chosen,
    get_active_monitor example_env = ([], inr chosen)
    /\ In chosen [Rect.mk 0 0 1920 1080]
    /\ get_overlapping_area (Rect.mk 300 200 110 135) chosen = 110 * 135
    /\ (forall other,
          get_overlapping_area (Rect.mk 300 200 110 135) other
          <= get_overlapping_area (Rect.mk 300 200 110 135) chosen).
Proof.
  apply (get_active_monitor_shows_whole_window example_env example_geometry
           (Rect.mk 0 0 1920 1080) [] (Rect.mk 0 0 1920 1080) eq_refl eq_refl).
  - simpl; lia.
  - simpl; lia.
  - left; reflexivity.
  - unfold within; simpl; lia.
Defined.

(** ** A command as a whole *)




(** ** The flag *)

Lemma blind_ret {A} (a : A) : verbose_blind (ret a).
Proof. intros env v. split; reflexivity. Qed.

Lemma blind_raise {A} (e : exn) : verbose_blind (@raise A e).
Proof. intros env v. split; reflexivity. Qed.

Lemma blind_emit (e : effect) : is_request e = true -> verbose_blind (emit e).
Proof.
  intros He env v. unfold emit, requests_of; cbn [fst snd filter].
  rewrite He. split; reflexivity.
Qed.

Lemma blind_e_setMoveResizeWindow (x y w h : Z) :
  verbose_blind (e_setMoveResizeWindow x y w h).
Proof.
  unfold e_setMoveResizeWindow.
  destruct (card32 x && card32 y && card32 w && card32 h);
    [apply blind_emit; reflexivity | apply blind_raise].
Qed.

Lemma blind_debug (line : string) : verbose_blind (debug line).
Proof. intros env [|]; split; reflexivity. Qed.

Lemma blind_get_geometry : verbose_blind get_geometry.
Proof. intros env v. split; reflexivity. Qed.

Lemma blind_get_monitors : verbose_blind get_monitors.
Proof. intros env v. split; reflexivity. Qed.

Lemma blind_bind {A B} (m : M A) (k : A -> M B) :
  verbose_blind m -> (forall a, verbose_blind (k a)) -> verbose_blind (bind m k).
Proof.
  intros Hm Hk env v. unfold bind.
  destruct (Hm env v) as [Htr Hr].
  destruct (m (set_VERBOSE false env)) as [tr0 r0],
           (m (set_VERBOSE v env)) as [tr1 r1].
  cbn [fst snd] in Htr, Hr. subst tr0 r0.
  destruct r1 as [e | a]; [split; reflexivity |].
  destruct (Hk a env v) as [Htr' Hr'].
  destruct (k a (set_VERBOSE false env)) as [tr0' r0'],
           (k a (set_VERBOSE v env)) as [tr1' r1'].
  cbn [fst snd] in *. subst tr0' r0'.
  unfold requests_of. rewrite filter_app. split; reflexivity.
Qed.

Lemma blind_getitem {K V} `{Eqb K} (d : dict K V) (k : K) :
  verbose_blind (getitem d k).
Proof.
  unfold getitem. destruct (dict_get d k); [apply blind_ret | apply blind_raise].
Qed.

Lemma blind_py_max {A} (key : A -> Z) (items : list A) :
  verbose_blind (py_max key items).
Proof. destruct items; [apply blind_raise | apply blind_ret]. Qed.

Lemma blind_scan (win_anchor win_size : Z * Z)
    (items : list (option (Tiling * XY.t * WH.t))) :
  verbose_blind (scan win_anchor win_size items).
Proof.
  induction items as [| [[[state anchor] size] |] items IH]; cbn [scan].
  - apply blind_ret.
  - destruct (eqb _ _); [apply blind_ret | exact IH].
  - apply blind_raise.
Qed.

Create HintDb blind.

#[local] Hint Resolve blind_ret blind_raise blind_emit blind_debug
  blind_e_setMoveResizeWindow
  blind_get_geometry blind_get_monitors blind_bind blind_getitem
  blind_py_max blind_scan : blind.

#[local] Hint Extern 1 (is_request _ = true) => reflexivity : blind.

Lemma blind_get_screen : verbose_blind get_screen.
Proof. unfold get_screen, get_active_monitor. auto 10 with blind. Qed.

Lemma blind__move (x y w h : Z) : verbose_blind (_move x y w h).
Proof. unfold _move, get_decoration_dimensions. auto 10 with blind. Qed.

#[local] Hint Resolve blind_get_screen blind__move : blind.

Lemma blind_move (direction : Direction) : verbose_blind (move direction).
Proof. unfold move. auto 10 with blind. Qed.

Lemma blind_maximise : verbose_blind maximise.
Proof. unfold maximise. auto 10 with blind. Qed.

Lemma blind_cornermove (c : Corner) : verbose_blind (cornermove c).
Proof. unfold cornermove. auto 10 with blind. Qed.

Lemma blind_get_windowstate : verbose_blind get_windowstate.
Proof. unfold get_windowstate. auto 10 with blind. Qed.

Lemma blind_move_command_from (windowstate : option Tiling)
    (direction : Direction) :
  verbose_blind (move_command_from windowstate direction).
Proof.
  unfold move_command_from.
  destruct windowstate as [st |]; [| apply blind_move].
  destruct (eqb st (AtDirection direction)); [apply blind_ret |].
  apply blind_bind; [apply blind_getitem | intros opposite].
  destruct (eqb st (AtDirection opposite)); [apply blind_maximise |].
  destruct st as [current | c]; [apply blind_cornermove |].
  destruct (dict_get cornerstates c); [apply blind_move | apply blind_raise].
Qed.

(** X4: [VERBOSE] shows only in what is printed.  With the flag off
    [move_command] prints nothing, and whatever the flag its requests to
    the display and its result are the same. *)
Theorem move_command_verbose_blind :
  forall (direction : Direction) (env : Env.t) (v : bool),
    fst (move_command direction (set_VERBOSE false env))
    = requests_of (fst (move_command direction (set_VERBOSE v env)))
    /\ snd (move_command direction (set_VERBOSE false env))
       = snd (move_command direction (set_VERBOSE v env))
    /\ requests_of (fst (move_command direction (set_VERBOSE false env)))
       = fst (move_command direction (set_VERBOSE false env)).
Proof.
  intros d env v.
  assert (Hblind : verbose_blind (move_command d)).
  { unfold move_command. apply blind_bind;
      [apply blind_get_windowstate | intros ws; apply blind_move_command_from]. }
  destruct (Hblind env v) as [Htr Hr].
  split; [exact Htr |]. split; [exact Hr |].
  destruct (Hblind (set_VERBOSE false env) false) as [Hquiet _].
  symmetry. exact Hquiet.
Qed.

(** ** Where a transition leads *)

(** X5: from a quarter every direction leads to a half of which the
    quarter is a part: the direction [cornerstates] gives (the requested
    one when it is not a key) is one of the corner's own two directions,
    [move_command] moves to that half, and every pixel of the quarter is
    a pixel of that half. *)
Theorem quarter_grows_into_a_half_around_it :
  forall (x y w h : Z) (c : Corner) (direction : Direction),
    In c canonical_corners ->
    let s := Screen.init x y w h in
    exists directions quarter anchor size,
      let move_direction := dict_get_default directions direction direction in
      dict_get cornerstates c = Some directions
      /\ (move_direction = fst c \/ move_direction = snd c)
      /\ (forall env,
            move_command_from (Some (AtCorner c)) direction env
            = move move_direction env)
      /\ dict_get (Screen.corneranchors s) c = Some quarter
      /\ dict_get (Screen.anchors s) move_direction = Some anchor
      /\ dict_get (Screen.sizes s) move_direction = Some size
      /\ forall px py,
          covers quarter (Screen.cornersize s) px py = true ->
          covers anchor size px py = true.
Proof.
  intros x y w h c d Hc s. subst s. rewrite Screen_init_eq.
  destruct (twice_half w) as [Hw Hwm], (twice_half h) as [Hh Hhm].
  unfold canonical_corners in Hc; simpl in Hc.
  destruct Hc as [<- | [<- | [<- | [<- | []]]]]; destruct d;
    do 4 eexists; cbv zeta;
    (split; [reflexivity |]);
    (split; [simpl; auto |]);
    (split; [intros env; rewrite move_command_from_eq; reflexivity |]);
    (split; [reflexivity |]); (split; [reflexivity |]);
    (split; [reflexivity |]);
    intros px py; unfold covers; cbn [XY.x XY.y WH.w WH.h Screen.cornersize];
    rewrite !andb_true_iff, !Z.leb_le, !Z.ltb_lt; lia.
Qed.

Lemma quarter_grows_into_a_half_around_it_witness :
  exists directions quarter anchor size,
    dict_get cornerstates (LEFT, UP) = Some directions
    /\ (dict_get_default directions DOWN DOWN = LEFT
        \/ dict_get_default directions DOWN DOWN = UP)
    /\ (forall env,
          move_command_from (Some (AtCorner (LEFT, UP))) DOWN env
          = move (dict_get_default directions DOWN DOWN) env)
    /\ dict_get (Screen.corneranchors (Screen.init 0 0 1920 1080)) (LEFT, UP)
       = Some quarter
    /\ dict_get (Screen.anchors (Screen.init 0 0 1920 1080))
                (dict_get_default directions DOWN DOWN) = Some anchor
    /\ dict_get (Screen.sizes (Screen.init 0 0 1920 1080))
                (dict_get_default directions DOWN DOWN) = Some size
    /\ forall px py,
        covers quarter (Screen.cornersize (Screen.init 0 0 1920 1080)) px py
        = true ->
        covers anchor size px py = true.
Proof.
  apply (quarter_grows_into_a_half_around_it 0 0 1920 1080 (LEFT, UP) DOWN).
  left. reflexivity.
Defined.

(** X6: from a half, a direction that is neither the half's nor its
    opposite leads to the quarter [corner current direction], and every
    pixel of that quarter is a pixel of the half the window was in and
    of the half of the requested direction. *)
Theorem half_shrinks_into_a_quarter_inside_it :
  forall (x y w h : Z) (current direction : Direction),
    current <> direction ->
    current <> spec_opposite direction ->
    let s := Screen.init x y w h in
    exists quarter anchor size anchor' size',
      (forall env,
          move_command_from (Some (AtDirection current)) direction env
          = cornermove (corner current direction) env)
      /\ dict_get (Screen.corneranchors s) (corner current direction)
         = Some quarter
      /\ dict_get (Screen.anchors s) current = Some anchor
      /\ dict_get (Screen.sizes s) current = Some size
      /\ dict_get (Screen.anchors s) direction = Some anchor'
      /\ dict_get (Screen.sizes s) direction = Some size'
      /\ forall px py,
          covers quarter (Screen.cornersize s) px py = true ->
          covers anchor size px py = true
          /\ covers anchor' size' px py = true.
Proof.
  intros x y w h current d Hne Hopp s. subst s. rewrite Screen_init_eq.
  destruct (twice_half w) as [Hw Hwm], (twice_half h) as [Hh Hhm].
  destruct current, d;
    try (exfalso; apply Hne; reflexivity);
    try (exfalso; apply Hopp; reflexivity);
    do 5 eexists;
    (split; [intros env; rewrite move_command_from_eq; reflexivity |]);
    (split; [reflexivity |]); (split; [reflexivity |]);
    (split; [reflexivity |]); (split; [reflexivity |]);
    (split; [reflexivity |]);
    intros px py; unfold covers; cbn [XY.x XY.y WH.w WH.h Screen.cornersize];
    rewrite !andb_true_iff, !Z.leb_le, !Z.ltb_lt; lia.
Qed.

Lemma half_shrinks_into_a_quarter_inside_it_witness :
  LEFT <> UP /\ LEFT <> spec_opposite UP
  /\ forall env,
       move_command_from (Some (AtDirection LEFT)) UP env
       = cornermove (LEFT, UP) env.
Proof.
  split; [discriminate |]. split; [discriminate |].
  destruct (half_shrinks_into_a_quarter_inside_it 0 0 1920 1080 LEFT UP)
    as (quarter & anchor & size & anchor' & size' & Hrun & _);
    [discriminate | discriminate |].
  exact Hrun.
Defined.

(** ** Telling the positions apart *)

Lemma enumerated_NoDup_from_2 (x y w h : Z) :
  2 <= w -> 2 <= h -> NoDup (map rect_of (enumerated x y w h)).
Proof.
  intros Hw Hh.
  destruct (twice_half w) as [Hw2 Hwm], (twice_half h) as [Hh2 Hhm].
  unfold enumerated, rect_of; simpl.
  repeat (constructor;
          [simpl; intros Hin;
           repeat (destruct Hin as [Hin | Hin]; [injection Hin; lia |]);
           exact Hin |]).
  constructor.
Qed.

Lemma NoDup_map_Some {A} (l : list A) : NoDup l -> NoDup (map Some l).
Proof.
  induction 1 as [| a l Hnotin Hnd IH]; cbn [map]; constructor; [| exact IH].
  intros Hin. apply in_map_iff in Hin. destruct Hin as (b & Hb & Hin).
  injection Hb as ->. exact (Hnotin Hin).
Qed.

(** X7: on a screen of non-negative width and height, the eight items
    [stateinfo] yields have pairwise different anchor and size exactly
    when the screen is at least 2 pixels wide and 2 pixels high; below
    that LEFT and RIGHT, or UP and DOWN, are one rectangle. *)
Theorem positions_distinct_iff_two_pixels :
  forall x y w h : Z,
    0 <= w -> 0 <= h ->
    (NoDup (map (option_map rect_of) (Screen.stateinfo (Screen.init x y w h)))
     <-> 2 <= w /\ 2 <= h).
Proof.
  intros x y w h Hw0 Hh0. rewrite stateinfo_init, map_map.
  split.
  - intros Hnd.
    destruct (twice_half w) as [Hw2 Hwm], (twice_half h) as [Hh2 Hhm].
    destruct (Z_lt_ge_dec w 2) as [Hw | Hw].
    + exfalso. assert (Hz : w / 2 = 0) by lia.
      unfold enumerated in Hnd. cbn [map option_map rect_of fst snd
        XY.x XY.y WH.w WH.h] in Hnd. rewrite Hz, Z.add_0_r in Hnd.
      inversion Hnd as [| ? ? Hnotin _]. apply Hnotin. left. reflexivity.
    + destruct (Z_lt_ge_dec h 2) as [Hh | Hh]; [| lia].
      exfalso. assert (Hz : h / 2 = 0) by lia.
      unfold enumerated in Hnd. cbn [map option_map rect_of fst snd
        XY.x XY.y WH.w WH.h] in Hnd. rewrite Hz, Z.add_0_r in Hnd.
      inversion Hnd as [| ? ? _ Hnd1]. inversion Hnd1 as [| ? ? _ Hnd2].
      inversion Hnd2 as [| ? ? Hnotin _]. apply Hnotin. left. reflexivity.
  - intros [Hw Hh].
    change (fun i => option_map rect_of (Some i))
      with (fun i => Some (rect_of i)).
    rewrite <- (map_map rect_of Some).
    apply NoDup_map_Some, enumerated_NoDup_from_2; assumption.
Qed.

Lemma positions_distinct_iff_two_pixels_witness :
  (NoDup (map (option_map rect_of)
              (Screen.stateinfo (Screen.init 0 0 1920 1080)))
   <-> 2 <= 1920 /\ 2 <= 1080)
  /\ ~ NoDup (map (option_map rect_of)
                  (Screen.stateinfo (Screen.init 0 0 1 1080))).
Proof.
  split.
  - apply (positions_distinct_iff_two_pixels 0 0 1920 1080); lia.
  - intros Hnd.
    apply (positions_distinct_iff_two_pixels 0 0 1 1080) in Hnd; lia.
Defined.

(** X8: geometry and classifier round trip.  On a monitor at least 2
    pixels wide and high, a frame that is exactly the rectangle of one
    of the screen's items is classified as that item's state, so
    [move_command] acts on that state; for a half, the half's own
    direction does nothing. *)
Theorem tiled_frame_is_recognised :
  forall (env : Env.t) g m ms (i : item),
    Env.geometry env = inr g ->
    Env.monitors env = inr (m :: ms) ->
    let monitor := active_monitor g m ms in
    2 <= Rect.width monitor ->
    2 <= Rect.height monitor ->
    In i (enumerated (Rect.x monitor) (Rect.y monitor)
                     (Rect.width monitor) (Rect.height monitor)) ->
    rect_of i
    = ((Rect.x (GeometryContainer.parent g), Rect.y (GeometryContainer.parent g)),
       (Rect.width (GeometryContainer.parent g),
        Rect.height (GeometryContainer.parent g))) ->
    get_windowstate env = ([], inr (Some (state_of i)))
    /\ (forall direction,
          move_command direction env
          = move_command_from (Some (state_of i)) direction env)
    /\ (forall direction,
          state_of i = AtDirection direction ->
          move_command direction env = ([], inr tt)).
Proof.
  intros env g m ms i Hg Hm monitor Hw Hh Hi Hrect.
  assert (Hws : get_windowstate env = ([], inr (Some (state_of i)))).
  { unfold get_windowstate.
    rewrite (bind_silent _ (get_screen_run env g m ms Hg Hm)).
    rewrite (bind_silent _ (get_geometry_run env g Hg)).
    unfold active_screen. rewrite stateinfo_init, scan_enumerated.
    fold monitor. rewrite <- Hrect.
    destruct (find (fun j => eqb (rect_of i) (rect_of j))
                   (enumerated (Rect.x monitor) (Rect.y monitor)
                      (Rect.width monitor) (Rect.height monitor)))
      as [j |] eqn:Hfind.
    - apply find_some in Hfind. destruct Hfind as [Hj Hji].
      apply eqb_eq in Hji.
      rewrite (NoDup_map_injective rect_of _ i j
                 (enumerated_NoDup_from_2 _ _ _ _ Hw Hh) Hi Hj Hji).
      reflexivity.
    - pose proof (find_none _ _ Hfind i Hi) as Hno. cbv beta in Hno.
      rewrite eqb_refl in Hno. discriminate Hno. }
  split; [exact Hws |].
  assert (Hcmd : forall direction,
             move_command direction env
             = move_command_from (Some (state_of i)) direction env).
  { intros d. unfold move_command.
    apply (bind_silent (fun ws => move_command_from ws d) Hws). }
  split; [exact Hcmd |].
  intros d Hd. rewrite Hcmd, Hd, move_command_from_eq, eqb_refl. reflexivity.
Qed.

Lemma tiled_frame_is_recognised_witness :
  get_windowstate tiled_left_env = ([], inr (Some (AtDirection LEFT)))
  /\ (forall direction,
        move_command direction tiled_left_env
        = move_command_from (Some (AtDirection LEFT)) direction tiled_left_env)
  /\ (forall direction,
        AtDirection LEFT = AtDirection direction ->
        move_command direction tiled_left_env = ([], inr tt)).
Proof.
  apply (tiled_frame_is_recognised tiled_left_env _ _ _
           (AtDirection LEFT, XY.mk 0 0, WH.mk 960 1080) eq_refl eq_refl).
  - simpl; lia.
  - simpl; lia.
  - left; reflexivity.
  - reflexivity.
Defined.

(** ** A maximised frame *)

(** X9: a frame that fills its monitor (at least 1 pixel wide and
    high) equals none of the items: [get_windowstate] returns [None] and
    every direction tiles the window to the requested half. *)
Theorem maximised_frame_is_untiled :
  forall (env : Env.t) g m ms,
    Env.geometry env = inr g ->
    Env.monitors env = inr (m :: ms) ->
    let monitor := active_monitor g m ms in
    1 <= Rect.width monitor ->
    1 <= Rect.height monitor ->
    Rect.x (GeometryContainer.parent g) = Rect.x monitor ->
    Rect.y (GeometryContainer.parent g) = Rect.y monitor ->
    Rect.width (GeometryContainer.parent g) = Rect.width monitor ->
    Rect.height (GeometryContainer.parent g) = Rect.height monitor ->
    get_windowstate env = ([], inr None)
    /\ forall direction, move_command direction env = move direction env.
Proof.
  intros env g m ms Hg Hm monitor Hw Hh Hx Hy Hwidth Hheight.
  assert (Hws : get_windowstate env = ([], inr None)).
  { unfold get_windowstate.
    rewrite (bind_silent _ (get_screen_run env g m ms Hg Hm)).
    rewrite (bind_silent _ (get_geometry_run env g Hg)).
    unfold active_screen. rewrite stateinfo_init, scan_enumerated.
    fold monitor. rewrite Hx, Hy, Hwidth, Hheight.
    destruct (twice_half (Rect.width monitor)) as [Hw2 Hwm],
             (twice_half (Rect.height monitor)) as [Hh2 Hhm].
    match goal with
    | |- (_, inr (option_map _ ?found)) = _ =>
        destruct found as [j |] eqn:Hfind; [| reflexivity]
    end.
    exfalso. apply find_some in Hfind. destruct Hfind as [Hj Heq].
    apply eqb_eq in Heq. unfold enumerated in Hj. cbn [In] in Hj.
    repeat (destruct Hj as [<- | Hj];
            [unfold rect_of in Heq; cbn [fst snd XY.x XY.y WH.w WH.h] in Heq;
             injection Heq; lia |]).
    exact Hj. }
  split; [exact Hws |].
  intros d. unfold move_command.
  apply (bind_silent (fun ws => move_command_from ws d) Hws).
Qed.

Lemma maximised_frame_is_untiled_witness :
  let env :=
    Env.mk (inr (GeometryContainer.mk (Rect.mk 5 30 1910 1045)
                                      (Rect.mk 0 0 1920 1080)))
           (inr [Rect.mk 0 0 1920 1080]) false in
  get_windowstate env = ([], inr None)
  /\ forall direction, move_command direction env = move direction env.
Proof.
  intros env.
  apply (maximised_frame_is_untiled env _ _ _ eq_refl eq_refl);
    try reflexivity; simpl; lia.
Defined.

(** ** The queue, event after event *)

(** X10: [consume] takes the queue front to back.  On [first ++ second]
    it does what it does on [first]; if that leaves it waiting it goes
    on with [second], the display being [List.length first] commands
    further; if [first] ended in an exception, [second] is added to the
    unconsumed events and nothing of it is handled. *)
Theorem consume_app :
  forall (callbacks : dict string Callback) (world : nat -> Env.t)
         (first second : list string) (n : nat),
    consume (first ++ second) callbacks world n =
    match consume first callbacks world n with
    | (tr, Waiting) =>
        (tr ++ fst (consume second callbacks world (n + List.length first)%nat),
         snd (consume second callbacks world (n + List.length first)%nat))
    | (tr, Crashed e unconsumed) => (tr, Crashed e (unconsumed ++ second))
    end.
Proof.
  intros callbacks world first second.
  induction first as [| event first IH]; intros n.
  - cbn [app consume List.length]. rewrite Nat.add_0_r.
    destruct (consume second callbacks world n); reflexivity.
  - cbn [app consume List.length]. rewrite Nat.add_succ_r.
    destruct (dict_get callbacks event) as [callback |].
    + destruct (callback (world n)) as [tr [e | u]]; [reflexivity |].
      rewrite (IH (S n)).
      destruct (consume first callbacks world (S n)) as [tr1 [| e rest]];
        [rewrite app_assoc |]; reflexivity.
    + rewrite (IH (S n)).
      destruct (consume first callbacks world (S n)) as [tr1 [| e rest]];
        reflexivity.
Qed.

Lemma consume_step (callbacks : dict string Callback) (world : nat -> Env.t)
    (event : string) (rest : list string) (n : nat) :
  consume (event :: rest) callbacks world n =
  match handle callbacks (world n) event with
  | (tr, inl e) => (tr, Crashed e rest)
  | (tr, inr _) =>
      (tr ++ fst (consume rest callbacks world (S n)),
       snd (consume rest callbacks world (S n)))
  end.
Proof.
  cbn [consume]. unfold handle.
  destruct (dict_get callbacks event) as [callback |].
  - destruct (callback (world n)) as [tr [e | u]]; [reflexivity |].
    destruct (consume rest callbacks world (S n)); reflexivity.
  - destruct (consume rest callbacks world (S n)); reflexivity.
Qed.

(** X11: [consume] is still waiting after the queue exactly when no
    callback of a queued event raises in its turn; an event without a
    callback never ends the loop: a queue of such events only prints one
    line for each, in order. *)
Theorem consume_waits_iff_no_callback_raises :
  forall (callbacks : dict string Callback) (world : nat -> Env.t)
         (queue : list string) (n : nat),
    (snd (consume queue callbacks world n) = Waiting
     <-> forall i event,
           nth_error queue i = Some event ->
           snd (handle callbacks (world (n + i)%nat) event) = inr tt)
    /\ ((forall event, In event queue -> dict_get callbacks event = None) ->
        consume queue callbacks world n
        = (map (fun event => print ("unhandled event " ++ event)%string) queue,
           Waiting)).
Proof.
  intros callbacks world queue. induction queue as [| event rest IH]; intros n.
  - split.
    + split; [intros _ [| i] ev H; discriminate H | reflexivity].
    + reflexivity.
  - destruct (IH (S n)) as [IHwait IHunknown]. split.
    + rewrite consume_step.
      destruct (handle callbacks (world n) event) as [tr [e | []]] eqn:Hh.
      * split; [discriminate |].
        intros Hall. specialize (Hall 0%nat event eq_refl).
        rewrite Nat.add_0_r, Hh in Hall. discriminate Hall.
      * cbn [snd]. rewrite IHwait. split.
        -- intros Hall [| i] ev Hi.
           ++ injection Hi as <-. rewrite Nat.add_0_r, Hh. reflexivity.
           ++ rewrite Nat.add_succ_r. apply (Hall i ev Hi).
        -- intros Hall i ev Hi. specialize (Hall (S i) ev Hi).
           rewrite Nat.add_succ_r in Hall. exact Hall.
    + intros Hnone. rewrite consume_step. unfold handle.
      rewrite (Hnone event (or_introl eq_refl)).
      rewrite IHunknown by (intros ev Hev; apply Hnone; right; exact Hev).
      reflexivity.
Qed.

(** ** The listener *)

(** X12: [EventListener.listen] queues the received events in arrival
    order up to the first stop event or failing connection, and nothing
    after it; the stop event itself is never queued.  It keeps accepting
    when neither occurred, returns on the stop event, and is left by the
    exception of the failing connection. *)
Theorem listen_enqueues_up_to_the_stop_event :
  forall connections : list (exn + string),
    let queue := fst (EventListener.listen connections) in
    ~ In STOP_EVENT_HANDLER queue
    /\ exists rest,
        connections = map inr queue ++ rest
        /\ match snd (EventListener.listen connections) with
           | EventListener.Accepting => rest = []
           | EventListener.Returned =>
               exists later, rest = inr STOP_EVENT_HANDLER :: later
           | EventListener.Raised e => exists later, rest = inl e :: later
           end.
Proof.
  induction connections as [| [e | event] connections IH];
    cbv zeta in *; cbn [EventListener.listen].
  - split; [intros [] | exists []; split; reflexivity].
  - cbn [fst snd map app]. split; [intros [] |].
    exists (inl e :: connections). split; [reflexivity | eauto].
  - destruct (eqb_spec event STOP_EVENT_HANDLER) as [-> | Hne].
    + cbn [fst snd map app]. split; [intros [] |].
      exists (inr STOP_EVENT_HANDLER :: connections).
      split; [reflexivity | eauto].
    + destruct (EventListener.listen connections) as [queue s].
      cbn [fst snd] in *. destruct IH as [Hnotin (rest & Hsplit & Hstate)].
      split.
      * intros [Heq | Hin]; [exact (Hne Heq) | exact (Hnotin Hin)].
      * exists rest. split; [| exact Hstate].
        cbn [map app]. rewrite <- Hsplit. reflexivity.
Qed.

Lemma listen_directions (directions : list Direction) :
  EventListener.listen (map (fun d => inr (str d)) directions)
  = (map str directions, EventListener.Accepting).
Proof.
  induction directions as [| d directions IH]; [reflexivity |].
  cbn [map EventListener.listen]. rewrite IH.
  destruct d; reflexivity.
Qed.

(** X13: the messages the client can send are the four direction names.
    None is the stop event, so the listener queues them all, in order,
    and stays accepting; and when each command returns in its turn, the
    consumer runs [move_command] for each, in that order, and waits for
    more. *)
Theorem client_messages_are_handled_in_order :
  forall (directions : list Direction) (world : nat -> Env.t),
    (forall i d,
        nth_error directions i = Some d ->
        snd (move_command d (world i)) = inr tt) ->
    (forall message,
        In message (keys CALLBACKS) <-> exists d, message = str d)
    /\ ~ In STOP_EVENT_HANDLER (keys CALLBACKS)
    /\ EventListener.listen (map (fun d => inr (str d)) directions)
       = (map str directions, EventListener.Accepting)
    /\ consume (fst (EventListener.listen
                       (map (fun d => inr (str d)) directions)))
               CALLBACKS world 0
       = (commands directions world 0, Waiting).
Proof.
  intros ds world Hworld.
  split.
  { intros message. change (keys CALLBACKS) with (map str [LEFT; RIGHT; UP; DOWN]).
    rewrite in_map_iff. split.
    - intros (d & <- & _). exists d. reflexivity.
    - intros (d & ->). exists d. split; [reflexivity |].
      destruct d; simpl; auto. }
  split.
  { change (keys CALLBACKS) with (map str [LEFT; RIGHT; UP; DOWN]). simpl.
    intuition discriminate. }
  split; [apply listen_directions |].
  rewrite listen_directions. cbn [fst].
  assert (Hgen : forall n,
             (forall i d, nth_error ds i = Some d ->
                          snd (move_command d (world (n + i)%nat)) = inr tt) ->
             consume (map str ds) CALLBACKS world n = (commands ds world n, Waiting)).
  { clear Hworld. induction ds as [| d ds IH]; intros n Hworld; [reflexivity |].
    cbn [map]. rewrite consume_step. unfold handle.
    rewrite CALLBACKS_lookup.
    pose proof (Hworld 0%nat d eq_refl) as Hret. rewrite Nat.add_0_r in Hret.
    destruct (move_command d (world n)) as [tr r] eqn:Hrun.
    cbn [snd] in Hret. subst r.
    rewrite IH.
    - cbn [commands fst snd]. rewrite Hrun. reflexivity.
    - intros i d' Hi. rewrite Nat.add_succ_comm. apply (Hworld (S i) d' Hi). }
  apply Hgen. intros i d Hi. apply Hworld, Hi.
Qed.

Lemma client_messages_are_handled_in_order_witness :
  consume (fst (EventListener.listen [inr "left"; inr "up"]))
          CALLBACKS (fun _ => example_env) 0
  = (commands [LEFT; UP] (fun _ => example_env) 0, Waiting).
Proof.
  assert (Hreturn : forall i d,
             nth_error [LEFT; UP] i = Some d ->
             snd (move_command d example_env) = inr tt).
  { intros [| [| i]] d Hd.
    - injection Hd as <-. reflexivity.
    - injection Hd as <-. reflexivity.
    - destruct i; discriminate Hd. }
  exact (proj2 (proj2 (proj2
    (client_messages_are_handled_in_order [LEFT; UP] (fun _ => example_env)
       Hreturn)))).
Defined.

(** ** Ports *)


(** Port 0: the file holds "0" while the listener is bound to the port
    the system picked. *)
Example server_on_port_0 :
  main (fun n => NilZero.string_of_int (Z.to_int n))
       (fun text => option_map Z.of_int (NilZero.int_of_string text))
       (server false (Some 0) false)
       (OS.mk (inr 50123) None
              (fun p => inr (if p =? 0 then 40001 else p))
              [] (fun _ => None) (fun _ => example_env))
       (inl FileNotFoundError)
  = (inr "0", Serving 0 40001 ([], Waiting)).
Proof. reflexivity. Qed.

Lemma main_serving (py_str : Z -> string) (py_int : string -> option Z)
    (verbose : bool) (port : option Z) (random_port : bool) (os : OS.t)
    (file file' : error + string) (p bound : Z) (run : trace * consumer) :
  main py_str py_int (server verbose port random_port) os file
  = (file', Serving p bound run) ->
  file' = inr (py_str p)
  /\ OS.Listener os p = inr bound
  /\ match port with
     | Some explicit => p = explicit
     | None => if random_port then OS.free_port os = inr p else p = DEFAULT_PORT
     end.
Proof.
  unfold main. destruct port as [explicit |]; [| destruct random_port].
  - destruct (OS.write_text os); [discriminate |].
    destruct (OS.Listener os explicit) eqn:Hl; [discriminate |].
    intros H. injection H as <- <- <- _. auto.
  - destruct (OS.free_port os) as [e | q]; [discriminate |].
    destruct (OS.write_text os); [discriminate |].
    destruct (OS.Listener os q) eqn:Hl; [discriminate |].
    intros H. injection H as <- <- <- _. auto.
  - destruct (OS.write_text os); [discriminate |].
    destruct (OS.Listener os DEFAULT_PORT) eqn:Hl; [discriminate |].
    intros H. injection H as <- <- <- _. auto.
Qed.

(** X15: a client sends to the port a serving server passed to its
    listener in the three matching ways: without flags, through the port
    file the server wrote, provided [int] reads back what [str] printed
    for the port; with the same explicit [--port]; and with
    [--use-hardcoded-port] when the server was started without port
    flags.  That port is where the server listens whenever the listener
    is bound to the port it was made for. *)
Theorem client_finds_the_server :
  forall (py_str : Z -> string) (py_int : string -> option Z)
         (verbose : bool) (port : option Z) (random_port : bool)
         (os : OS.t) (file file' : error + string) (p bound : Z)
         (run : trace * consumer),
    main py_str py_int (server verbose port random_port) os file
    = (file', Serving p bound run) ->
    forall (verbose' : bool) (message : string) (os' : OS.t),
      OS.Client os' p = None ->
      OS.Listener os p = inr bound
      /\ (py_int (py_str p) = Some p ->
          main py_str py_int (client verbose' message None false) os' file'
          = (file', Sent p message))
      /\ (forall explicit later,
            port = Some explicit ->
            main py_str py_int (client verbose' message (Some explicit) false)
                 os' later
            = (later, Sent p message))
      /\ (forall later,
            port = None -> random_port = false ->
            main py_str py_int (client verbose' message None true) os' later
            = (later, Sent p message)).
Proof.
  intros py_str py_int verbose port random_port os file file' p bound run
         Hserve verbose' message os' Hclient.
  destruct (main_serving py_str py_int verbose port random_port os file file'
              p bound run Hserve) as (Hfile & Hbound & Hport).
  split; [exact Hbound |].
  split; [| split].
  - intros Hround. unfold main, get_port_from_file.
    rewrite Hfile, Hround, Hclient. reflexivity.
  - intros explicit later ->. subst p. unfold main. rewrite Hclient.
    reflexivity.
  - intros later -> ->. subst p. unfold main. rewrite Hclient. reflexivity.
Qed.

Lemma client_finds_the_server_witness :
  let py_str := fun n => NilZero.string_of_int (Z.to_int n) in
  let py_int := fun text => option_map Z.of_int (NilZero.int_of_string text) in
  let os := OS.mk (inr 50123) None (fun p => inr p) [inr "left"]
                  (fun _ => None) (fun _ => example_env) in
  main py_str py_int (server false None true) os (inl FileNotFoundError)
  = (inr "50123",
     Serving 50123 50123
       ([ setWmState 0 "_NET_WM_STATE_MAXIMIZED_HORZ";
          setWmState 0 "_NET_WM_STATE_MAXIMIZED_VERT";
          setMoveResizeWindow 5 30 950 1045;
          flush ], Waiting))
  /\ main py_str py_int (client false "right" None false) os (inr "50123")
     = (inr "50123", Sent 50123 "right").
Proof.
  intros py_str py_int os.
  assert (Hserve :
            main py_str py_int (server false None true) os (inl FileNotFoundError)
            = (inr "50123",
               Serving 50123 50123
                 ([ setWmState 0 "_NET_WM_STATE_MAXIMIZED_HORZ";
                    setWmState 0 "_NET_WM_STATE_MAXIMIZED_VERT";
                    setMoveResizeWindow 5 30 950 1045;
                    flush ], Waiting))) by reflexivity.
  split; [exact Hserve |].
  apply (proj1 (proj2 (client_finds_the_server py_str py_int false None true os
                         _ _ _ _ _ Hserve false "right" os eq_refl))).
  reflexivity.
Defined.
